(** * Character cards: Tavern/SillyTavern card import and export

    A shallow embedding of [character_card_utils.py].  Python values are
    modelled by the inductive type [pyval]; a Python [str] is the list of
    its code points, so that case-insensitive matching, lone surrogates and
    UTF-8 are visible.  A call that can raise returns a [result].

    Value model: [None], [bool], [int], [str], [list] and [dict] with [str]
    keys (insertion ordered, as [json.dumps] prints them).  Floats, tuples,
    bytes values and user classes are outside the model. *)

From Stdlib Require Import List ZArith NArith Bool String Ascii Lia.
Import ListNotations.

(** ** Strings *)

(** A Python [str]: its code points, each below [0x110000]. *)
Definition pystr := list N.

(** The [str] written by an ASCII literal of the source. *)
Definition str (s : string) : pystr :=
  map N_of_ascii (list_ascii_of_string s).

Fixpoint pystr_eqb (a b : pystr) : bool :=
  match a, b with
  | [], [] => true
  | x :: a', y :: b' => N.eqb x y && pystr_eqb a' b'
  | _, _ => false
  end.

(** [starts_with p s]: [s.startswith(p)]. *)
Fixpoint starts_with (p s : pystr) : bool :=
  match p with
  | [] => true
  | x :: p' =>
      match s with
      | [] => false
      | y :: s' => N.eqb x y && starts_with p' s'
      end
  end.

(** [is_substring p s]: [p in s] for two strings. *)
Fixpoint is_substring (p s : pystr) : bool :=
  starts_with p s ||
  match s with
  | [] => false
  | _ :: s' => is_substring p s'
  end.

(** ** Values *)

Unset Elimination Schemes.

Inductive pyval : Type :=
| PNone
| PBool (b : bool)
| PInt (n : Z)
| PStr (s : pystr)
| PList (l : list pyval)
| PDict (d : list (pystr * pyval)).

Set Elimination Schemes.

Definition pydict := list (pystr * pyval).

(** Truth value of an object, as tested by [if x] and [not x]. *)
Definition truthy (v : pyval) : bool :=
  match v with
  | PNone => false
  | PBool b => b
  | PInt n => negb (Z.eqb n 0)
  | PStr s => match s with [] => false | _ => true end
  | PList l => match l with [] => false | _ => true end
  | PDict d => match d with [] => false | _ => true end
  end.

(** ** Exceptions *)

(** The exception classes the module can meet; all derive from
    [Exception].  [Exception msg] is the one the export path raises itself;
    [LibraryError msg] is an exception of a collaborator (the imaging
    library, [json], [base64]) carrying its own message. *)
Inductive exn : Type :=
| TypeError
| AttributeError
| KeyError
| ValueError
| ReError              (* re.error, and the IndexError of an unknown group name *)
| UnicodeEncodeError
| UnicodeDecodeError
| BinasciiError
| JSONDecodeError
| RecursionError
| LibraryError (msg : pystr)
| Exception (msg : pystr).

Inductive result (A : Type) : Type :=
| Ok (a : A)
| Raise (e : exn).

Arguments Ok {A} a.
Arguments Raise {A} e.

Definition bind {A B} (r : result A) (k : A -> result B) : result B :=
  match r with
  | Ok a => k a
  | Raise e => Raise e
  end.

Notation "x <- r ;; k" := (bind r (fun x => k))
  (at level 61, r at next level, right associativity).

(** [try: body except Exception as e: handler(e)]. *)
Definition try_except {A} (body : result A) (handler : exn -> result A)
  : result A :=
  match body with
  | Ok a => Ok a
  | Raise e => handler e
  end.

(** ** Dictionaries *)

Fixpoint dict_get (d : pydict) (k : pystr) : option pyval :=
  match d with
  | [] => None
  | (k', v) :: d' => if pystr_eqb k' k then Some v else dict_get d' k
  end.

Definition dict_has (d : pydict) (k : pystr) : bool :=
  match dict_get d k with Some _ => true | None => false end.

Definition is_str (k : pystr) (v : pyval) : bool :=
  match v with
  | PStr s => pystr_eqb s k
  | _ => false
  end.

(** [k in container] for a string [k]. *)
Definition py_contains (k : pystr) (container : pyval) : result bool :=
  match container with
  | PDict d => Ok (dict_has d k)
  | PList l => Ok (existsb (is_str k) l)
  | PStr s => Ok (is_substring k s)
  | PNone | PBool _ | PInt _ => Raise TypeError
  end.

(** [container[k]] for a string [k]. *)
Definition py_getitem (container : pyval) (k : pystr) : result pyval :=
  match container with
  | PDict d =>
      match dict_get d k with
      | Some v => Ok v
      | None => Raise KeyError
      end
  | _ => Raise TypeError
  end.

(** [obj.get(k, default)]: only a [dict] has the method. *)
Definition py_get (obj : pyval) (k : pystr) (default : pyval) : result pyval :=
  match obj with
  | PDict d =>
      Ok (match dict_get d k with Some v => v | None => default end)
  | _ => Raise AttributeError
  end.

(** [sep.join(parts)]: every part has to be a [str]. *)
Fixpoint join_strs (sep : pystr) (parts : list pystr) : pystr :=
  match parts with
  | [] => []
  | [s] => s
  | s :: rest => s ++ sep ++ join_strs sep rest
  end.

Fixpoint all_strs (parts : list pyval) : option (list pystr) :=
  match parts with
  | [] => Some []
  | PStr s :: rest =>
      match all_strs rest with
      | Some l => Some (s :: l)
      | None => None
      end
  | _ :: _ => None
  end.

Definition py_join (sep : pystr) (parts : list pyval) : result pyval :=
  match all_strs parts with
  | Some l => Ok (PStr (join_strs sep l))
  | None => Raise TypeError
  end.

(** ** Regular-expression substitution

    [re.sub(pattern, repl, text, flags=re.IGNORECASE)] for the two patterns
    of the source, [\{\{char\}\}] and [\{\{user\}\}]: a sequence of literal
    characters of fixed, non-zero length. *)

Definition is_digit (c : N) : bool := (48 <=? c)%N && (c <=? 57)%N.
Definition is_octdigit (c : N) : bool := (48 <=? c)%N && (c <=? 55)%N.
Definition is_ascii_lower (c : N) : bool := (97 <=? c)%N && (c <=? 122)%N.
Definition is_ascii_upper (c : N) : bool := (65 <=? c)%N && (c <=? 90)%N.
Definition is_ascii_letter (c : N) : bool :=
  is_ascii_lower c || is_ascii_upper c.

(** The characters a literal [p] of a [str] pattern matches under
    [re.IGNORECASE], for [p] a lower-case ASCII letter or an ASCII
    non-letter.  A letter matches the characters whose lower case it is,
    and the characters [sre] lists as its equivalents: the long s (U+017F)
    for [s], the dotless i (U+0131) for [i]; the Kelvin sign (U+212A) and
    the dotted capital I (U+0130) lower to [k] and [i]. *)
Definition matches_ignorecase (p c : N) : bool :=
  N.eqb c p
  || (is_ascii_lower p && N.eqb c (p - 32))
  || (N.eqb p 115 && N.eqb c 383)
  || (N.eqb p 107 && N.eqb c 8490)
  || (N.eqb p 105 && (N.eqb c 304 || N.eqb c 305)).

(** The pattern matches at the start of [text]. *)
Fixpoint match_here (pat text : pystr) : bool :=
  match pat with
  | [] => true
  | p :: pat' =>
      match text with
      | [] => false
      | c :: text' => matches_ignorecase p c && match_here pat' text'
      end
  end.

(** A compiled replacement template: literal characters and references to
    group 0, the whole match.  The patterns have no other group. *)
Inductive titem : Type :=
| TLit (c : N)
| TGroup0.

Definition template := list titem.

Fixpoint all_digits (s : pystr) : bool :=
  match s with
  | [] => true
  | c :: s' => is_digit c && all_digits s'
  end.

(** The name of a [\g<name>] reference and what follows the [>]. *)
Fixpoint until_gt (s : pystr) : option (pystr * pystr) :=
  match s with
  | [] => None
  | c :: s' =>
      if N.eqb c 62 then Some ([], s')
      else match until_gt s' with
           | Some (name, rest) => Some (c :: name, rest)
           | None => None
           end
  end.

Definition digit_val (c : N) : N := (c - 48)%N.

Definition decimal_val (s : pystr) : N :=
  fold_left (fun acc c => (acc * 10 + digit_val c)%N) s 0%N.

(** The simple escapes of a template: [\a \b \f \n \r \t \v \\]. *)
Definition template_escape (c : N) : option N :=
  if N.eqb c 97 then Some 7%N
  else if N.eqb c 98 then Some 8%N
  else if N.eqb c 102 then Some 12%N
  else if N.eqb c 110 then Some 10%N
  else if N.eqb c 114 then Some 13%N
  else if N.eqb c 116 then Some 9%N
  else if N.eqb c 118 then Some 11%N
  else if N.eqb c 92 then Some 92%N
  else None.

(** [parse_template]: the replacement string is compiled before the text
    is searched, and an ill-formed one raises.  After a backslash:
    [g<name>] is a group reference (only group 0 exists), [0] starts an
    octal escape of up to three digits, another digit starts a three-digit
    octal escape or else a reference to a group that does not exist, the
    simple escapes stand for their control character, any other ASCII
    letter is an error and any other character is kept with its
    backslash.  A backslash that ends the string is an error.  [fuel]
    bounds the calls; [compile_template] gives enough for any string. *)
Fixpoint parse_template (fuel : nat) (s : pystr) : result template :=
  match s with
  | [] => Ok []
  | c :: rest =>
      match fuel with
      | O => Raise RecursionError
      | S fuel' =>
          if negb (N.eqb c 92) then
            t <- parse_template fuel' rest ;; Ok (TLit c :: t)
          else
            match rest with
            | [] => Raise ReError
            | e :: r1 =>
                if N.eqb e 103 then
                  match r1 with
                  | [] => Raise ReError
                  | lt :: r2 =>
                      if negb (N.eqb lt 60) then Raise ReError
                      else
                        match until_gt r2 with
                        | None => Raise ReError
                        | Some (name, r3) =>
                            match name with
                            | [] => Raise ReError
                            | _ :: _ =>
                                if all_digits name
                                   && N.eqb (decimal_val name) 0
                                then t <- parse_template fuel' r3 ;;
                                     Ok (TGroup0 :: t)
                                else Raise ReError
                            end
                        end
                  end
                else if N.eqb e 48 then
                  match r1 with
                  | d1 :: r2 =>
                      if is_octdigit d1 then
                        match r2 with
                        | d2 :: r3 =>
                            if is_octdigit d2 then
                              t <- parse_template fuel' r3 ;;
                              Ok (TLit (N.land (digit_val d1 * 8
                                                + digit_val d2) 255) :: t)
                            else
                              t <- parse_template fuel' r2 ;;
                              Ok (TLit (digit_val d1) :: t)
                        | [] => Ok [TLit (digit_val d1)]
                        end
                      else
                        t <- parse_template fuel' r1 ;; Ok (TLit 0 :: t)
                  | [] => Ok [TLit 0%N]
                  end
                else if is_digit e then
                  match r1 with
                  | d1 :: d2 :: r3 =>
                      if is_digit d1 && is_octdigit e && is_octdigit d1
                         && is_octdigit d2
                      then
                        let v := (digit_val e * 64 + digit_val d1 * 8
                                  + digit_val d2)%N in
                        if (255 <? v)%N then Raise ReError
                        else t <- parse_template fuel' r3 ;;
                             Ok (TLit v :: t)
                      else Raise ReError
                  | _ => Raise ReError
                  end
                else
                  match template_escape e with
                  | Some x =>
                      t <- parse_template fuel' r1 ;; Ok (TLit x :: t)
                  | None =>
                      if is_ascii_letter e then Raise ReError
                      else t <- parse_template fuel' r1 ;;
                           Ok (TLit 92 :: TLit e :: t)
                  end
            end
      end
  end.

Definition compile_template (repl : pystr) : result template :=
  parse_template (S (List.length repl)) repl.

(** The text a template stands for at a match [m]. *)
Fixpoint expand (t : template) (m : pystr) : pystr :=
  match t with
  | [] => []
  | TLit c :: t' => c :: expand t' m
  | TGroup0 :: t' => m ++ expand t' m
  end.

(** The scan of [re.sub]: leftmost matches, none overlapping another;
    [skip] counts the characters of the current match still to pass. *)
Fixpoint sub_scan (pat : pystr) (t : template) (skip : nat) (text : pystr)
  : pystr :=
  match text with
  | [] => []
  | c :: rest =>
      match skip with
      | S k => sub_scan pat t k rest
      | O =>
          if match_here pat text then
            expand t (firstn (List.length pat) text)
              ++ sub_scan pat t (List.length pat - 1) rest
          else c :: sub_scan pat t 0 rest
      end
  end.

(** [re.sub(pat, repl, text, flags=re.IGNORECASE)].  The replacement is
    compiled first; a replacement or a text that is not a [str] is a
    [TypeError]. *)
Definition re_sub (pat : pystr) (repl text : pyval) : result pyval :=
  match repl with
  | PStr r =>
      t <- compile_template r ;;
      match text with
      | PStr s => Ok (PStr (sub_scan pat t 0 s))
      | _ => Raise TypeError
      end
  | _ => Raise TypeError
  end.

(** ** The functions of the module *)

(** The literal text of the two patterns. *)
Definition char_token : pystr := str "{{char}}".
Definition user_token : pystr := str "{{user}}".

(** [replace_placeholders] (lines 71-91): a falsy text is returned as it
    is; otherwise the two substitutions run one after the other. *)
Definition replace_placeholders (text char_name user_name : pyval)
  : result pyval :=
  if negb (truthy text) then Ok text
  else
    text <- re_sub char_token char_name text ;;
    text <- re_sub user_token user_name text ;;
    Ok text.

(** One step of [persona_parts] (lines 123-127): the value under [key] is
    appended when the key is present and the value is truthy. *)
Definition persona_part (tavern_card : pyval) (key : pystr)
  : result (list pyval) :=
  present <- py_contains key tavern_card ;;
  if present then
    v <- py_getitem tavern_card key ;;
    Ok (if truthy v then [v] else [])
  else Ok [].

(** [map_tavern_to_internal] (lines 94-154). *)
Definition map_tavern_to_internal (tavern_card user_name : pyval)
  : result pyval :=
  wrapped <- py_contains (str "data") tavern_card ;;
  tavern_card <-
    (if wrapped then py_getitem tavern_card (str "data")
     else Ok tavern_card) ;;
  ai_name <- py_get tavern_card (str "name") (PStr (str "BOT")) ;;
  p1 <- persona_part tavern_card (str "personality") ;;
  p2 <- persona_part tavern_card (str "description") ;;
  let persona_parts := p1 ++ p2 in
  persona_desc <-
    (match persona_parts with
     | [] => Ok (PStr (str "An AI companion"))
     | _ :: _ => py_join (str " ") persona_parts
     end) ;;
  persona_desc <- replace_placeholders persona_desc ai_name user_name ;;
  legacy <- py_get tavern_card (str "greeting") (PStr []) ;;
  greeting <- py_get tavern_card (str "first_mes") legacy ;;
  greeting <- replace_placeholders greeting ai_name user_name ;;
  scenario <- py_get tavern_card (str "scenario") (PStr []) ;;
  scenario <- replace_placeholders scenario ai_name user_name ;;
  mes_example <- py_get tavern_card (str "mes_example") (PStr []) ;;
  mes_example <- replace_placeholders mes_example ai_name user_name ;;
  Ok (PDict [ (str "ai_name", ai_name);
              (str "persona_desc", persona_desc);
              (str "greeting", greeting);
              (str "scenario", scenario);
              (str "mes_example", mes_example);
              (str "raw_card", tavern_card) ]).

(** [map_internal_to_tavern] (lines 200-225). *)
Definition map_internal_to_tavern (character_data : pyval) : result pyval :=
  name <- py_get character_data (str "ai_name") (PStr (str "BOT")) ;;
  description <- py_get character_data (str "persona_desc") (PStr []) ;;
  personality <- py_get character_data (str "persona_desc") (PStr []) ;;
  first_mes <- py_get character_data (str "greeting") (PStr []) ;;
  scenario <- py_get character_data (str "scenario") (PStr []) ;;
  mes_example <- py_get character_data (str "mes_example") (PStr []) ;;
  Ok (PDict [ (str "name", name);
              (str "description", description);
              (str "personality", personality);
              (str "first_mes", first_mes);
              (str "scenario", scenario);
              (str "mes_example", mes_example);
              (str "creator_notes", PStr (str "Exported from BrainDancev2"));
              (str "system_prompt", PStr []);
              (str "post_history_instructions", PStr []);
              (str "tags", PList []);
              (str "creator", PStr (str "BrainDancev2"));
              (str "character_version", PStr (str "1.0"));
              (str "spec", PStr (str "chara_card_v2"));
              (str "spec_version", PStr (str "2.0")) ]).

(** ** Notions used to state the properties *)

(** A name without a backslash: as a replacement template it stands for
    itself. *)
Definition backslash_free (s : pystr) : bool :=
  forallb (fun c => negb (N.eqb c 92)) s.

(** Substitution of the literal text [r]. *)
Definition sub_literal (pat r text : pystr) : pystr :=
  sub_scan pat (map TLit r) 0 text.

(** [occurs pat text]: the pattern matches at some position of [text]. *)
Fixpoint occurs (pat text : pystr) : bool :=
  match_here pat text ||
  match text with
  | [] => false
  | _ :: rest => occurs pat rest
  end.

(** The substitution in the words of the specification: the text is read
    from the left; where the token matches, case-insensitively, the
    replacement is written and reading resumes after the match in the
    text, so that what was written is not read again; any other character
    is copied. *)
Inductive replaced (pat r : pystr) : pystr -> pystr -> Prop :=
| replaced_end : replaced pat r [] []
| replaced_token (m rest out : pystr) :
    List.length m = List.length pat ->
    match_here pat m = true ->
    replaced pat r rest out ->
    replaced pat r (m ++ rest) (r ++ out)
| replaced_copy (c : N) (rest out : pystr) :
    match_here pat (c :: rest) = false ->
    replaced pat r rest out ->
    replaced pat r (c :: rest) (c :: out).


(** The two passes with the names taken literally. *)
Definition substitute (text char_name user_name : pystr) : pystr :=
  sub_literal user_token user_name (sub_literal char_token char_name text).

(** The value under a key, or a default: [d.get(k, default)]. *)
Definition field (d : pydict) (k : pystr) (default : pyval) : pyval :=
  match dict_get d k with
  | Some v => v
  | None => default
  end.

(** A field that is absent or holds a [str]; its text. *)
Definition is_text_field (d : pydict) (k : pystr) : bool :=
  match dict_get d k with
  | None | Some (PStr _) => true
  | Some _ => false
  end.

Definition text_of (d : pydict) (k : pystr) (default : pystr) : pystr :=
  match dict_get d k with
  | Some (PStr s) => s
  | _ => default
  end.

(** A Tavern card whose name and text fields, where present, are
    strings. *)
Definition tavern_fields : list pystr :=
  [ str "name"; str "personality"; str "description"; str "first_mes";
    str "greeting"; str "scenario"; str "mes_example" ].

Definition tavern_typed (d : pydict) : bool :=
  forallb (is_text_field d) tavern_fields.

(** The non-empty text of a field, if any. *)
Definition nonempty_text (d : pydict) (k : pystr) : list pystr :=
  match dict_get d k with
  | Some (PStr (c :: s)) => [c :: s]
  | _ => []
  end.

(** The persona description in the words of the specification: the
    non-empty values of [personality] and [description], in that order,
    joined by one space; the fallback if there is none. *)
Definition persona_join (d : pydict) : pystr :=
  match nonempty_text d (str "personality")
        ++ nonempty_text d (str "description") with
  | [] => str "An AI companion"
  | parts => join_strs (str " ") parts
  end.

Definition card_name (d : pydict) : pystr := text_of d (str "name") (str "BOT").

Definition greeting_text (d : pydict) : pystr :=
  text_of d (str "first_mes") (text_of d (str "greeting") []).

(** ** The card codec: JSON, UTF-8 and base64

    Models of the library calls of the codec: [json.dumps] with
    [ensure_ascii=False], [str.encode('utf-8')], [base64.b64encode] on
    the export side; [base64.b64decode] and [json.loads] on the import
    side.  Bytes are numbers below 256. *)

Definition bytes := list N.

(** *** UTF-8 *)

Definition is_surrogate (c : N) : bool := (55296 <=? c)%N && (c <=? 57343)%N.

(** The bytes of one code point; a surrogate has none. *)
Definition utf8_encode_char (c : N) : option bytes :=
  if (c <? 128)%N then Some [c]
  else if (c <? 2048)%N then
    Some [192 + c / 64; 128 + c mod 64]%N
  else if (c <? 65536)%N then
    if is_surrogate c then None
    else Some [224 + c / 4096; 128 + (c / 64) mod 64; 128 + c mod 64]%N
  else if (c <? 1114112)%N then
    Some [240 + c / 262144; 128 + (c / 4096) mod 64;
          128 + (c / 64) mod 64; 128 + c mod 64]%N
  else None.

(** [s.encode('utf-8')]: a surrogate raises [UnicodeEncodeError]. *)
Fixpoint utf8_encode (s : pystr) : result bytes :=
  match s with
  | [] => Ok []
  | c :: s' =>
      match utf8_encode_char c with
      | None => Raise UnicodeEncodeError
      | Some b => rest <- utf8_encode s' ;; Ok (b ++ rest)
      end
  end.

Definition is_continuation (b : N) : bool := (128 <=? b)%N && (b <=? 191)%N.

(** [b.decode('utf-8', 'surrogatepass')]: well-formed UTF-8, and the
    three-byte form of a surrogate, which the error handler lets
    through. *)
Fixpoint utf8_decode (b : bytes) : result pystr :=
  match b with
  | [] => Ok []
  | b0 :: r0 =>
      if (b0 <? 128)%N then
        s <- utf8_decode r0 ;; Ok (b0 :: s)
      else if (192 <=? b0)%N && (b0 <? 224)%N then
        match r0 with
        | b1 :: r1 =>
            let c := ((b0 - 192) * 64 + (b1 - 128))%N in
            if is_continuation b1 && (128 <=? c)%N then
              s <- utf8_decode r1 ;; Ok (c :: s)
            else Raise UnicodeDecodeError
        | _ => Raise UnicodeDecodeError
        end
      else if (224 <=? b0)%N && (b0 <? 240)%N then
        match r0 with
        | b1 :: b2 :: r2 =>
            let c := ((b0 - 224) * 4096 + (b1 - 128) * 64 + (b2 - 128))%N in
            if is_continuation b1 && is_continuation b2 && (2048 <=? c)%N
            then s <- utf8_decode r2 ;; Ok (c :: s)
            else Raise UnicodeDecodeError
        | _ => Raise UnicodeDecodeError
        end
      else if (240 <=? b0)%N && (b0 <? 248)%N then
        match r0 with
        | b1 :: b2 :: b3 :: r3 =>
            let c := ((b0 - 240) * 262144 + (b1 - 128) * 4096
                      + (b2 - 128) * 64 + (b3 - 128))%N in
            if is_continuation b1 && is_continuation b2
               && is_continuation b3
               && (65536 <=? c)%N && (c <? 1114112)%N
            then s <- utf8_decode r3 ;; Ok (c :: s)
            else Raise UnicodeDecodeError
        | _ => Raise UnicodeDecodeError
        end
      else Raise UnicodeDecodeError
  end.

(** *** Base64 *)

(** The character of a six-bit value in the standard alphabet. *)
Definition b64_char (v : N) : N :=
  if (v <? 26)%N then (65 + v)%N
  else if (v <? 52)%N then (71 + v)%N
  else if (v <? 62)%N then (v - 4)%N
  else if (v =? 62)%N then 43%N
  else 47%N.

(** The six-bit value of a character, if it is in the alphabet. *)
Definition b64_value (ch : N) : option N :=
  if is_ascii_upper ch then Some (ch - 65)%N
  else if is_ascii_lower ch then Some (ch - 71)%N
  else if is_digit ch then Some (ch + 4)%N
  else if (ch =? 43)%N then Some 62%N
  else if (ch =? 47)%N then Some 63%N
  else None.

(** [base64.b64encode(b).decode('ascii')]: three bytes give four
    characters; one or two bytes left over are padded with [=]. *)
Fixpoint b64encode (b : bytes) : pystr :=
  match b with
  | [] => []
  | [x] =>
      [b64_char (x / 4); b64_char ((x mod 4) * 16); 61; 61]%N
  | [x; y] =>
      [b64_char (x / 4); b64_char ((x mod 4) * 16 + y / 16);
       b64_char ((y mod 16) * 4); 61]%N
  | x :: y :: z :: rest =>
      [b64_char (x / 4); b64_char ((x mod 4) * 16 + y / 16);
       b64_char ((y mod 16) * 4 + z / 64); b64_char (z mod 64)]%N
        ++ b64encode rest
  end.

(** [binascii.a2b_base64], not strict: characters outside the alphabet
    are passed over; [quad_pos] is the position in the group of four,
    [leftchar] the bits not yet written, [pads] the run of [=] seen; a
    padding that completes a group ends the input; [Error] is raised when
    the data stops inside a group. *)
Fixpoint a2b_base64 (quad_pos leftchar pads : N) (s : pystr) : result bytes :=
  match s with
  | [] => if (quad_pos =? 0)%N then Ok [] else Raise BinasciiError
  | ch :: s' =>
      if (ch =? 61)%N then
        if (2 <=? quad_pos)%N then
          if (4 <=? quad_pos + (pads + 1))%N then Ok []
          else a2b_base64 quad_pos leftchar (pads + 1) s'
        else a2b_base64 quad_pos leftchar pads s'
      else
        match b64_value ch with
        | None => a2b_base64 quad_pos leftchar pads s'
        | Some v =>
            if (quad_pos =? 0)%N then a2b_base64 1 v 0 s'
            else if (quad_pos =? 1)%N then
              rest <- a2b_base64 2 (v mod 16) 0 s' ;;
              Ok ((leftchar * 4 + v / 16)%N :: rest)
            else if (quad_pos =? 2)%N then
              rest <- a2b_base64 3 (v mod 4) 0 s' ;;
              Ok ((leftchar * 16 + v / 4)%N :: rest)
            else
              rest <- a2b_base64 0 0 0 s' ;;
              Ok ((leftchar * 64 + v)%N :: rest)
        end
  end.

Definition is_ascii (s : pystr) : bool := forallb (fun c => (c <? 128)%N) s.

(** [base64.b64decode(s)]: a [str] has to be ASCII; the model holds no
    bytes-like value, so any other argument is a [TypeError]. *)
Definition b64decode (s : pyval) : result bytes :=
  match s with
  | PStr t => if is_ascii t then a2b_base64 0 0 0 t else Raise ValueError
  | _ => Raise TypeError
  end.

(** *** JSON encoding *)

(** The decimal digits of a natural number; [fuel] bounds their count. *)
Fixpoint digits_of (fuel : nat) (n : N) : pystr :=
  match fuel with
  | O => [(48 + n)%N]
  | S fuel' =>
      if (n <? 10)%N then [(48 + n)%N]
      else digits_of fuel' (n / 10) ++ [(48 + n mod 10)%N]
  end.

(** [repr] of an [int]. *)
Definition int_repr (z : Z) : pystr :=
  match z with
  | Z0 => [48%N]
  | Zpos p => digits_of (N.to_nat (N.size (Npos p))) (Npos p)
  | Zneg p => 45%N :: digits_of (N.to_nat (N.size (Npos p))) (Npos p)
  end.

Definition hex_digit (v : N) : N :=
  if (v <? 10)%N then (48 + v)%N else (87 + v)%N.

(** The escapes of [encode_basestring]: the quote, the backslash and the
    control characters; every other character is written as it is. *)
Definition escape_char (c : N) : pystr :=
  if (c =? 34)%N then [92; 34]%N
  else if (c =? 92)%N then [92; 92]%N
  else if (c =? 10)%N then [92; 110]%N
  else if (c =? 13)%N then [92; 114]%N
  else if (c =? 9)%N then [92; 116]%N
  else if (c =? 12)%N then [92; 102]%N
  else if (c =? 8)%N then [92; 98]%N
  else if (c <? 32)%N then
    [92; 117; 48; 48; hex_digit (c / 16); hex_digit (c mod 16)]%N
  else [c].

Definition json_string (s : pystr) : pystr :=
  34%N :: flat_map escape_char s ++ [34%N].

(** [json.dumps(v, ensure_ascii=False)], with the default separators. *)
Fixpoint json_dumps (v : pyval) : pystr :=
  match v with
  | PNone => str "null"
  | PBool true => str "true"
  | PBool false => str "false"
  | PInt n => int_repr n
  | PStr s => json_string s
  | PList l =>
      91%N ::
      (fix items (l : list pyval) : pystr :=
         match l with
         | [] => []
         | x :: l' =>
             match l' with
             | [] => json_dumps x
             | _ :: _ => json_dumps x ++ str ", " ++ items l'
             end
         end) l ++ [93%N]
  | PDict d =>
      123%N ::
      (fix members (d : list (pystr * pyval)) : pystr :=
         match d with
         | [] => []
         | (k, x) :: d' =>
             match d' with
             | [] => json_string k ++ str ": " ++ json_dumps x
             | _ :: _ =>
                 json_string k ++ str ": " ++ json_dumps x ++ str ", "
                   ++ members d'
             end
         end) d ++ [125%N]
  end.

Definition dumps_items : list pyval -> pystr :=
  fix items (l : list pyval) : pystr :=
    match l with
    | [] => []
    | x :: l' =>
        match l' with
        | [] => json_dumps x
        | _ :: _ => json_dumps x ++ str ", " ++ items l'
        end
    end.

Definition dumps_members : pydict -> pystr :=
  fix members (d : list (pystr * pyval)) : pystr :=
    match d with
    | [] => []
    | (k, x) :: d' =>
        match d' with
        | [] => json_string k ++ str ": " ++ json_dumps x
        | _ :: _ =>
            json_string k ++ str ": " ++ json_dumps x ++ str ", "
              ++ members d'
        end
    end.

(** *** JSON decoding *)

(** The outcome of scanning a value at the head of a text.  [Beyond]: the
    text leaves the modelled fragment, because the value is a float. *)
Inductive parsed (A : Type) : Type :=
| Parsed (a : A) (rest : pystr)
| Failed (e : exn)
| Beyond.

Arguments Parsed {A} a rest.
Arguments Failed {A} e.
Arguments Beyond {A}.

Definition parsed_map {A B} (f : A -> B) (p : parsed A) : parsed B :=
  match p with
  | Parsed a rest => Parsed (f a) rest
  | Failed e => Failed e
  | Beyond => Beyond
  end.

Definition is_whitespace (c : N) : bool :=
  (c =? 32)%N || (c =? 9)%N || (c =? 10)%N || (c =? 13)%N.

Fixpoint skip_whitespace (s : pystr) : pystr :=
  match s with
  | c :: s' => if is_whitespace c then skip_whitespace s' else s
  | [] => []
  end.

Definition hex_value (c : N) : option N :=
  if is_digit c then Some (c - 48)%N
  else if (97 <=? c)%N && (c <=? 102)%N then Some (c - 87)%N
  else if (65 <=? c)%N && (c <=? 70)%N then Some (c - 55)%N
  else None.

Definition hex4 (h1 h2 h3 h4 : N) : option N :=
  match hex_value h1, hex_value h2, hex_value h3, hex_value h4 with
  | Some a, Some b, Some c, Some d =>
      Some (((a * 16 + b) * 16 + c) * 16 + d)%N
  | _, _, _, _ => None
  end.

Definition is_high_surrogate (c : N) : bool :=
  (55296 <=? c)%N && (c <=? 56319)%N.
Definition is_low_surrogate (c : N) : bool :=
  (56320 <=? c)%N && (c <=? 57343)%N.
Definition join_surrogates (hi lo : N) : N :=
  (65536 + (hi - 55296) * 1024 + (lo - 56320))%N.

Definition simple_escape (e : N) : option N :=
  if (e =? 34)%N then Some 34%N
  else if (e =? 92)%N then Some 92%N
  else if (e =? 47)%N then Some 47%N
  else if (e =? 98)%N then Some 8%N
  else if (e =? 102)%N then Some 12%N
  else if (e =? 110)%N then Some 10%N
  else if (e =? 114)%N then Some 13%N
  else if (e =? 116)%N then Some 9%N
  else None.

(** [scanstring], strict, from the character after the opening quote. *)
Fixpoint scan_string (s : pystr) : parsed pystr :=
  match s with
  | [] => Failed JSONDecodeError
  | c :: r =>
      if (c =? 34)%N then Parsed [] r
      else if (c =? 92)%N then
        match r with
        | [] => Failed JSONDecodeError
        | e :: r1 =>
            if (e =? 117)%N then
              match r1 with
              | h1 :: h2 :: h3 :: h4 :: r2 =>
                  match hex4 h1 h2 h3 h4 with
                  | None => Failed JSONDecodeError
                  | Some u1 =>
                      if is_high_surrogate u1 then
                        match r2 with
                        | b :: u :: k1 :: k2 :: k3 :: k4 :: r3 =>
                            if (b =? 92)%N && (u =? 117)%N then
                              match hex4 k1 k2 k3 k4 with
                              | None => Failed JSONDecodeError
                              | Some u2 =>
                                  if is_low_surrogate u2 then
                                    parsed_map
                                      (cons (join_surrogates u1 u2))
                                      (scan_string r3)
                                  else
                                    parsed_map (cons u1) (scan_string r2)
                              end
                            else parsed_map (cons u1) (scan_string r2)
                        | _ => parsed_map (cons u1) (scan_string r2)
                        end
                      else parsed_map (cons u1) (scan_string r2)
                  end
              | _ => Failed JSONDecodeError
              end
            else
              match simple_escape e with
              | Some x => parsed_map (cons x) (scan_string r1)
              | None => Failed JSONDecodeError
              end
        end
      else if (c <? 32)%N then Failed JSONDecodeError
      else parsed_map (cons c) (scan_string r)
  end.

(** The digits at the head of a text, and what follows them. *)
Fixpoint span_digits (s : pystr) : pystr * pystr :=
  match s with
  | c :: s' =>
      if is_digit c then
        let (ds, rest) := span_digits s' in (c :: ds, rest)
      else ([], s)
  | [] => ([], [])
  end.

(** A fraction or an exponent follows: the number is a float. *)
Definition float_follows (s : pystr) : bool :=
  match s with
  | c :: d :: s' =>
      ((c =? 46)%N && is_digit d)
      || (((c =? 101)%N || (c =? 69)%N)
          && (is_digit d
              || (((d =? 43)%N || (d =? 45)%N)
                  && match s' with
                     | x :: _ => is_digit x
                     | [] => false
                     end)))
  | _ => false
  end.

(** The integer part of a number, without its sign: [0], or a digit from
    1 to 9 and the digits after it. *)
Definition scan_natural (s : pystr) : parsed N :=
  match s with
  | c :: s' =>
      if (c =? 48)%N then Parsed 0%N s'
      else if is_digit c then
        let (ds, rest) := span_digits s' in
        Parsed (decimal_val (c :: ds)) rest
      else Failed JSONDecodeError
  | [] => Failed JSONDecodeError
  end.

Definition scan_number (s : pystr) : parsed pyval :=
  let (negative, s') :=
    match s with
    | c :: s' => if (c =? 45)%N then (true, s') else (false, s)
    | [] => (false, s)
    end in
  match scan_natural s' with
  | Parsed n rest =>
      if float_follows rest then Beyond
      else Parsed (PInt (if negative then (- Z.of_N n)%Z else Z.of_N n)) rest
  | Failed e => Failed e
  | Beyond => Beyond
  end.

(** [d[k] = v]: a key already there keeps its place. *)
Fixpoint dict_set (d : pydict) (k : pystr) (v : pyval) : pydict :=
  match d with
  | [] => [(k, v)]
  | (k', v') :: d' =>
      if pystr_eqb k' k then (k', v) :: d' else (k', v') :: dict_set d' k v
  end.

(** [scan_once]: the value at the head of the text.  [elements] and
    [members] read the items of an array and of an object after the
    opening bracket.  [fuel] bounds the calls; [json_decode] gives enough
    for any text. *)
Fixpoint scan_once (fuel : nat) (s : pystr) : parsed pyval :=
  match fuel with
  | O => Failed RecursionError
  | S fuel' =>
      match s with
      | [] => Failed JSONDecodeError
      | c :: r =>
          if (c =? 34)%N then parsed_map PStr (scan_string r)
          else if (c =? 123)%N then
            match skip_whitespace r with
            | c' :: r' =>
                if (c' =? 125)%N then Parsed (PDict []) r'
                else scan_members fuel' (c' :: r') []
            | [] => Failed JSONDecodeError
            end
          else if (c =? 91)%N then
            match skip_whitespace r with
            | c' :: r' =>
                if (c' =? 93)%N then Parsed (PList []) r'
                else scan_elements fuel' (c' :: r') []
            | [] => Failed JSONDecodeError
            end
          else if starts_with (str "null") s then
            Parsed PNone (skipn 4 s)
          else if starts_with (str "true") s then
            Parsed (PBool true) (skipn 4 s)
          else if starts_with (str "false") s then
            Parsed (PBool false) (skipn 5 s)
          else if starts_with (str "NaN") s
                  || starts_with (str "Infinity") s
                  || starts_with (str "-Infinity") s then Beyond
          else scan_number s
      end
  end

with scan_elements (fuel : nat) (s : pystr) (acc : list pyval)
  : parsed pyval :=
  match fuel with
  | O => Failed RecursionError
  | S fuel' =>
      match scan_once fuel' s with
      | Parsed v rest =>
          match skip_whitespace rest with
          | c :: r =>
              if (c =? 93)%N then Parsed (PList (rev (v :: acc))) r
              else if (c =? 44)%N then
                scan_elements fuel' (skip_whitespace r) (v :: acc)
              else Failed JSONDecodeError
          | [] => Failed JSONDecodeError
          end
      | Failed e => Failed e
      | Beyond => Beyond
      end
  end

with scan_members (fuel : nat) (s : pystr) (acc : pydict) : parsed pyval :=
  match fuel with
  | O => Failed RecursionError
  | S fuel' =>
      match s with
      | q :: r0 =>
          if negb (q =? 34)%N then Failed JSONDecodeError
          else
            match scan_string r0 with
            | Parsed key r1 =>
                match skip_whitespace r1 with
                | colon :: r2 =>
                    if negb (colon =? 58)%N then Failed JSONDecodeError
                    else
                      match scan_once fuel' (skip_whitespace r2) with
                      | Parsed v rest =>
                          match skip_whitespace rest with
                          | c :: r =>
                              if (c =? 125)%N then
                                Parsed (PDict (dict_set acc key v)) r
                              else if (c =? 44)%N then
                                scan_members fuel' (skip_whitespace r)
                                  (dict_set acc key v)
                              else Failed JSONDecodeError
                          | [] => Failed JSONDecodeError
                          end
                      | Failed e => Failed e
                      | Beyond => Beyond
                      end
                | [] => Failed JSONDecodeError
                end
            | Failed e => Failed e
            | Beyond => Beyond
            end
      | [] => Failed JSONDecodeError
      end
  end.

(** [JSONDecoder.decode] on a [str]: white space, one value, white space,
    and the end of the text. *)
Definition json_decode (s : pystr) : option (result pyval) :=
  match scan_once (S (2 * List.length s)) (skip_whitespace s) with
  | Parsed v rest =>
      match skip_whitespace rest with
      | [] => Some (Ok v)
      | _ :: _ => Some (Raise JSONDecodeError)
      end
  | Failed e => Some (Raise e)
  | Beyond => None
  end.

(** [detect_encoding] answers UTF-8: no byte order mark, and no zero
    among the first two bytes of a text of two, four or more bytes. *)
Definition detects_utf8 (b : bytes) : bool :=
  negb (starts_with [255; 254]%N b)
  && negb (starts_with [254; 255]%N b)
  && negb (starts_with [239; 187; 191]%N b)
  && negb (starts_with [0; 0; 254; 255]%N b)
  && match b with
     | b0 :: b1 :: rest =>
         match rest with
         | [_] => true
         | _ => negb (b0 =? 0)%N && negb (b1 =? 0)%N
         end
     | _ => true
     end.

(** [json.loads] on bytes.  [None]: the input leaves the modelled
    fragment, because it is in UTF-16 or UTF-32, starts with a byte order
    mark, or holds a float. *)
Definition json_loads (b : bytes) : option (result pyval) :=
  if detects_utf8 b then
    match utf8_decode b with
    | Ok s => json_decode s
    | Raise e => Some (Raise e)
    end
  else None.

(** The codec as the two entry points use it: lines 177-178 of the
    export, lines 49-50 of the import. *)
Definition card_encode (tavern_card : pyval) : result pystr :=
  let card_json := json_dumps tavern_card in
  encoded <- utf8_encode card_json ;;
  Ok (b64encode encoded).

Definition card_decode (chara_data_b64 : pyval) : option (result pyval) :=
  match b64decode chara_data_b64 with
  | Ok chara_data_json => json_loads chara_data_json
  | Raise e => Some (Raise e)
  end.

(** *** Well-formed values

    The keys of a [dict] are distinct; the association list of the model
    has to say so. *)

Fixpoint distinct (l : list pystr) : bool :=
  match l with
  | [] => true
  | k :: l' => negb (existsb (pystr_eqb k) l') && distinct l'
  end.

Fixpoint well_formed (v : pyval) : bool :=
  match v with
  | PList l => forallb well_formed l
  | PDict d =>
      distinct (map fst d)
      && forallb (fun kv => match kv with (_, x) => well_formed x end) d
  | _ => true
  end.

(** No surrogate code point in a string of the value, keys included, and
    no number that is not a code point. *)
Definition encodable_char (c : N) : bool :=
  (c <? 1114112)%N && negb (is_surrogate c).

Fixpoint encodable (v : pyval) : bool :=
  match v with
  | PStr s => forallb encodable_char s
  | PList l => forallb encodable l
  | PDict d =>
      forallb (fun kv => match kv with
                         | (k, x) => forallb encodable_char k && encodable x
                         end) d
  | _ => true
  end.

(** The calls [scan_once] needs to read a value back. *)
Fixpoint weight (v : pyval) : nat :=
  match v with
  | PList l => S (fold_right (fun x n => S (weight x) + n)%nat O l)
  | PDict d =>
      S (fold_right (fun kv n => match kv with
                                 | (_, x) => S (weight x) + n
                                 end)%nat O d)
  | _ => 1%nat
  end.

(** What may follow a value in the output of [json.dumps]: the end of the
    text, a comma, or a closing bracket. *)
Definition delimited (rest : pystr) : bool :=
  match rest with
  | [] => true
  | c :: _ => (c =? 44)%N || (c =? 93)%N || (c =? 125)%N
  end.

(** The first character of a value in the output of [json.dumps]. *)
Definition value_start (c : N) : bool :=
  is_digit c || (c =? 45)%N || (c =? 34)%N || (c =? 91)%N || (c =? 123)%N
  || (c =? 110)%N || (c =? 116)%N || (c =? 102)%N.

(** A value is read back from the text written for it. *)
Definition reads_back (v : pyval) : Prop :=
  forall (fuel : nat) (rest : pystr),
    (weight v <= fuel)%nat ->
    delimited rest = true ->
    scan_once fuel (json_dumps v ++ rest) = Parsed v rest.

Definition items_weight (l : list pyval) : nat :=
  fold_right (fun x n => S (weight x) + n)%nat O l.

Definition members_weight (d : pydict) : nat :=
  fold_right (fun kv n => match kv with
                          | (_, x) => S (weight x) + n
                          end)%nat O d.

(** ** The entry points

    The imaging library is a collaborator the module only calls: its
    images, the file-like objects it reads and its four operations are
    parameters.  So are [json.loads] on the import path, whose result for
    a text with floats the value model does not hold, and the text
    [str(e)] of an exception raised by the interpreter or a library. *)

Section Entry_points.

Variable Image : Type.
Variable File : Type.

(** What [import_character_card] is given: [bytes], or an object that
    is handed to the imaging library as it is. *)
Inductive image_source : Type :=
| Source_bytes (b : bytes)
| Source_file (f : File).

(** What [Image.open] is given. *)
Inductive stream : Type :=
| BytesIO (b : bytes)
| File_object (f : File).

Variable Image_open : stream -> result Image.

(** [img.info], the metadata dictionary of an opened image. *)
Variable Image_info : Image -> pydict.

(** [Image.new(mode, size, color)]. *)
Variable Image_new : pystr -> N * N -> pystr -> Image.

(** [image.save(output, format=..., pnginfo=...)] and the bytes then
    read from [output]; [pnginfo] is the list of the text entries
    added. *)
Variable Image_save : Image -> pystr -> list (pystr * pystr) -> result bytes.

Variable loads : bytes -> result pyval.

Variable exn_text : exn -> pystr.

(** [str(e)]. *)
Definition exn_str (e : exn) : pystr :=
  match e with
  | Exception msg | LibraryError msg => msg
  | _ => exn_text e
  end.

(** The dictionary [import_character_card] returns. *)
Record import_result : Type := {
  success : bool;
  error : option pystr;
  image : option Image;
  character_data : option pyval
}.

(** [import_character_card] (lines 16-68). *)
Definition import_character_card (image_data : image_source)
    (user_name : pyval) : result import_result :=
  try_except
    (img <- (match image_data with
             | Source_bytes b => Image_open (BytesIO b)
             | Source_file f => Image_open (File_object f)
             end) ;;
     if negb (dict_has (Image_info img) (str "chara")) then
       Ok {| success := false;
             error := Some (str "No character card metadata found in image. Make sure this is a valid Tavern/SillyTavern character card.");
             image := Some img;
             character_data := None |}
     else
       chara_data_b64 <- py_getitem (PDict (Image_info img)) (str "chara") ;;
       chara_data_json <- b64decode chara_data_b64 ;;
       character_card <- loads chara_data_json ;;
       mapped_data <- map_tavern_to_internal character_card user_name ;;
       Ok {| success := true;
             error := None;
             image := Some img;
             character_data := Some mapped_data |})
    (fun e =>
       Ok {| success := false;
             error := Some (str "Error importing character card: "
                            ++ exn_str e);
             image := None;
             character_data := None |}).

(** [export_character_card] (lines 157-197). *)
Definition export_character_card (character_data : pyval)
    (image : option Image) : result bytes :=
  try_except
    (tavern_card <- map_internal_to_tavern character_data ;;
     let card_json := json_dumps tavern_card in
     encoded <- utf8_encode card_json ;;
     let card_b64 := b64encode encoded in
     let image :=
       match image with
       | None => Image_new (str "RGB") (400, 600)%N (str "#282a36")
       | Some image => image
       end in
     let pnginfo := [ (str "chara", card_b64) ] in
     Image_save image (str "PNG") pnginfo)
    (fun e =>
       Raise (Exception (str "Error exporting character card: "
                         ++ exn_str e))).

End Entry_points.

Arguments Source_bytes {File} b.
Arguments Source_file {File} f.
Arguments BytesIO {File} b.
Arguments File_object {File} f.
Arguments success {Image} i.
Arguments error {Image} i.
Arguments image {Image} i.
Arguments character_data {Image} i.
Arguments import_character_card {Image File} Image_open Image_info loads
  exn_text image_data user_name.
Arguments export_character_card {Image} Image_new Image_save exn_text
  character_data image.

(** ** A stand-in for the collaborators

    Used to run the entry points on examples.  An image is given by its
    metadata: a file object opens to the image whose metadata it holds,
    and raw bytes are never identified as an image; a new image has no
    metadata; saving returns the text entries as they are.  [json.loads]
    is the decoder of the codec, on the fragment it models. *)

Definition stub_open (s : stream pydict) : result pydict :=
  match s with
  | BytesIO _ => Raise (LibraryError (str "cannot identify image file"))
  | File_object f => Ok f
  end.

Definition stub_info (img : pydict) : pydict := img.

Definition stub_new (mode : pystr) (size : N * N) (color : pystr) : pydict :=
  [].

Definition stub_save (img : pydict) (format : pystr)
    (pnginfo : list (pystr * pystr)) : result bytes :=
  Ok (flat_map (fun kv => fst kv ++ snd kv) pnginfo).

Definition stub_loads (b : bytes) : result pyval :=
  match json_loads b with
  | Some r => r
  | None => Raise (LibraryError (str "outside the modelled fragment"))
  end.

Definition stub_text (e : exn) : pystr := str "error".

Definition stub_import (image_data : image_source pydict) (user_name : pyval)
  : result (import_result pydict) :=
  import_character_card stub_open stub_info stub_loads stub_text
    image_data user_name.

(** ** The convenience opener *)

Section Opener.

Variable Image : Type.
Variable File : Type.
Variable Image_open : stream File -> result Image.

(** [isinstance(x, str)] for an object that is not [bytes]: a path. *)
Variable is_path : File -> bool.

Variable exn_text : exn -> pystr.

(** [open_image_safely] (lines 228-251).  The result is what the call
    returns, [None] or the image, with the lines it prints. *)
Definition open_image_safely (image_path_or_data : image_source File)
  : result (option Image * list pystr) :=
  try_except
    (img <- (match image_path_or_data with
             | Source_bytes b => Image_open (BytesIO b)
             | Source_file f =>
                 if is_path f then Image_open (File_object f)
                 else Image_open (File_object f)
             end) ;;
     Ok (Some img, []))
    (fun e =>
       Ok (None, [str "Error opening image: " ++ exn_str exn_text e])).

End Opener.

Arguments open_image_safely {Image File} Image_open is_path exn_text
  image_path_or_data.

(** ** Notions used to state further properties *)

(** The ASCII lower case of a character. *)
Definition ascii_lower (c : N) : N :=
  if is_ascii_upper c then (c + 32)%N else c.

(** The lower case the long s folds to, besides. *)
Definition fold_long_s (c : N) : N :=
  if N.eqb c 383 then 115%N else ascii_lower c.

(** The message of the not-found result. *)
Definition not_found_message : pystr :=
  str "No character card metadata found in image. Make sure this is a valid Tavern/SillyTavern character card.".

(** A value is a [str]. *)
Definition is_pystr (v : pyval) : bool :=
  match v with
  | PStr _ => true
  | _ => false
  end.

(** A call returned. *)
Definition returned {A : Type} (r : result A) : bool :=
  match r with
  | Ok _ => true
  | Raise _ => false
  end.

(** A character of the base64 alphabet, or the padding. *)
Definition b64_significant (c : N) : bool :=
  N.eqb c 61 || match b64_value c with Some _ => true | None => false end.

Definition is_mapping (v : pyval) : bool :=
  match v with PDict _ => true | _ => false end.

(** An internal record whose five text fields, where present, are
    strings. *)
Definition internal_fields : list pystr :=
  [ str "ai_name"; str "persona_desc"; str "greeting"; str "scenario";
    str "mes_example" ].

Definition internal_typed (d : pydict) : bool :=
  forallb (is_text_field d) internal_fields.

(** The persona description of a record that went out to a Tavern card
    and came back: the card holds it twice, as [personality] and as
    [description]. *)
Definition persona_round_trip (pd : pystr) : pystr :=
  match pd with
  | [] => str "An AI companion"
  | _ :: _ => pd ++ str " " ++ pd
  end.

(** What [map_tavern_to_internal] raises on a value that is not a
    mapping: the test [in] raises on [None], a [bool] and an [int]; a
    [str] or a [list] that holds ["data"] cannot be indexed by it, and one
    that does not has no [get]. *)
Definition not_a_mapping_error (card : pyval) : exn :=
  match card with
  | PStr s => if is_substring (str "data") s then TypeError else AttributeError
  | PList l =>
      if existsb (is_str (str "data")) l then TypeError else AttributeError
  | _ => TypeError
  end.

(** A stand-in for an imaging library that keeps its word: a saved image
    is the text of its entries, and bytes open to an image whose [chara]
    entry is this text. *)
Definition memory_save (img : pydict) (format : pystr)
    (pnginfo : list (pystr * pystr)) : result bytes :=
  Ok (flat_map snd pnginfo).

Definition memory_open (s : stream pydict) : result pydict :=
  match s with
  | BytesIO b => Ok [ (str "chara", PStr b) ]
  | File_object f => Ok f
  end.

(** The values of a record that [map_internal_to_tavern] reads. *)
Definition exported_fields (d : pydict) : list pyval :=
  [ field d (str "ai_name") (PStr (str "BOT"));
    field d (str "persona_desc") (PStr []);
    field d (str "greeting") (PStr []);
    field d (str "scenario") (PStr []);
    field d (str "mes_example") (PStr []) ].
(** * Properties of the placeholder substitution *)

Lemma pystr_eqb_refl (a : pystr) : pystr_eqb a a = true.
Proof.
  induction a as [|x a IH]; simpl; [reflexivity|].
  now rewrite N.eqb_refl, IH.
Qed.

Lemma pystr_eqb_eq (a b : pystr) : pystr_eqb a b = true <-> a = b.
Proof.
  split.
  - revert b; induction a as [|x a IH]; intros [|y b] H; simpl in H;
      try discriminate; [reflexivity|].
    apply andb_true_iff in H as [Hx Hab].
    apply N.eqb_eq in Hx. apply IH in Hab. now subst.
  - intros ->. apply pystr_eqb_refl.
Qed.

Lemma parse_template_literal (s : pystr) :
  backslash_free s = true ->
  forall fuel, (List.length s <= fuel)%nat ->
  parse_template fuel s = Ok (map TLit s).
Proof.
  induction s as [|c s IH]; intros Hs fuel Hfuel;
    [destruct fuel; reflexivity|].
  destruct fuel as [|fuel]; [simpl in Hfuel; lia|].
  simpl in Hfuel. cbn [backslash_free forallb] in Hs.
  apply andb_true_iff in Hs as [Hc Hs].
  cbn [parse_template]. rewrite Hc.
  rewrite IH; [reflexivity|assumption|lia].
Qed.

Lemma compile_template_literal (s : pystr) :
  backslash_free s = true -> compile_template s = Ok (map TLit s).
Proof.
  intros Hs. unfold compile_template.
  apply parse_template_literal; [assumption|lia].
Qed.

Lemma expand_literal (r m : pystr) : expand (map TLit r) m = r.
Proof.
  induction r as [|c r IH]; simpl; [reflexivity|now rewrite IH].
Qed.

Lemma re_sub_literal (pat r text : pystr) :
  backslash_free r = true ->
  re_sub pat (PStr r) (PStr text) = Ok (PStr (sub_literal pat r text)).
Proof.
  intros Hr. unfold re_sub. now rewrite compile_template_literal.
Qed.

Lemma sub_scan_no_occurrence (pat : pystr) (t : template) (text : pystr) :
  occurs pat text = false -> sub_scan pat t 0 text = text.
Proof.
  induction text as [|c rest IH]; intros H; [reflexivity|].
  cbn [occurs] in H. apply orb_false_iff in H as [Hm Hrest].
  cbn [sub_scan]. rewrite Hm. now rewrite IH.
Qed.

Lemma sub_scan_skip (pat : pystr) (t : template) (k : nat) (text : pystr) :
  sub_scan pat t k text = sub_scan pat t 0 (skipn k text).
Proof.
  revert text; induction k as [|k IH]; intros text; [reflexivity|].
  destruct text as [|c rest]; [reflexivity|].
  cbn [sub_scan skipn]. apply IH.
Qed.

Lemma sub_scan_at_match (pat : pystr) (t : template) (m rest : pystr) :
  pat <> [] ->
  List.length m = List.length pat ->
  match_here pat (m ++ rest) = true ->
  sub_scan pat t 0 (m ++ rest) = expand t m ++ sub_scan pat t 0 rest.
Proof.
  intros Hpat Hlen Hm.
  destruct m as [|c m'].
  - destruct pat; [contradiction|discriminate].
  - change ((c :: m') ++ rest) with (c :: (m' ++ rest)) in *.
    cbn [sub_scan]. rewrite Hm.
    change (c :: (m' ++ rest)) with ((c :: m') ++ rest).
    rewrite <- Hlen, firstn_app, firstn_all, Nat.sub_diag.
    cbn [firstn]. rewrite app_nil_r.
    f_equal. rewrite sub_scan_skip. f_equal.
    cbn [List.length]. rewrite Nat.sub_succ, Nat.sub_0_r.
    rewrite skipn_app, skipn_all, Nat.sub_diag. reflexivity.
Qed.

Lemma match_here_app (pat m rest : pystr) :
  List.length m = List.length pat ->
  match_here pat (m ++ rest) = match_here pat m.
Proof.
  revert m; induction pat as [|p pat IH]; intros [|c m] Hlen;
    simpl in Hlen; try discriminate; [reflexivity|].
  cbn [app match_here]. rewrite IH; [reflexivity|lia].
Qed.

Lemma firstn_skipn_length (A : Type) (n : nat) (l : list A) :
  (n <= List.length l)%nat -> List.length (firstn n l) = n.
Proof. intros H. rewrite length_firstn. lia. Qed.

Lemma match_here_length (pat text : pystr) :
  match_here pat text = true -> (List.length pat <= List.length text)%nat.
Proof.
  revert text; induction pat as [|p pat IH]; intros text H; simpl; [lia|].
  destruct text as [|c text]; [discriminate|].
  cbn [match_here] in H. apply andb_true_iff in H as [_ H].
  apply IH in H. simpl. lia.
Qed.

Lemma sub_literal_replaced (pat r : pystr) :
  pat <> [] ->
  forall text, replaced pat r text (sub_literal pat r text).
Proof.
  intros Hpat text.
  remember (List.length text) as n eqn:Hn.
  revert text Hn.
  induction n as [n IH] using lt_wf_ind. intros text Hn.
  destruct text as [|c rest]; [constructor|].
  destruct (match_here pat (c :: rest)) eqn:Hm.
  - pose proof (match_here_length _ _ Hm) as Hle.
    rewrite <- (firstn_skipn (List.length pat) (c :: rest)) in Hm |- *.
    set (m := firstn (List.length pat) (c :: rest)) in *.
    set (tl := skipn (List.length pat) (c :: rest)) in *.
    assert (Hlen : List.length m = List.length pat)
      by (apply firstn_skipn_length; assumption).
    unfold sub_literal. rewrite sub_scan_at_match by assumption.
    rewrite expand_literal.
    rewrite match_here_app in Hm by assumption.
    apply replaced_token; [assumption|assumption|].
    apply (IH (List.length tl)); [|reflexivity].
    subst n tl. rewrite length_skipn.
    destruct pat; [contradiction|]. simpl. lia.
  - unfold sub_literal. cbn [sub_scan]. rewrite Hm.
    apply replaced_copy; [assumption|].
    apply (IH (List.length rest)); [subst n; simpl; lia|reflexivity].
Qed.

(** The relation determines its output: it is the specification of a
    function. *)
Lemma app_inj_length (A : Type) (m m' rest rest' : list A) :
  List.length m = List.length m' ->
  m ++ rest = m' ++ rest' -> m = m' /\ rest = rest'.
Proof.
  revert m'; induction m as [|x m IH]; intros [|y m'] Hl Heq;
    simpl in *; try discriminate; [now split|].
  injection Heq as -> Heq.
  destruct (IH m') as [-> ->]; [lia|assumption|now split].
Qed.

Lemma replaced_functional (pat r text out1 out2 : pystr) :
  pat <> [] ->
  replaced pat r text out1 -> replaced pat r text out2 -> out1 = out2.
Proof.
  intros Hpat H1. revert out2.
  induction H1 as [|m rest out Hlen Hm H1 IH|c rest out Hm H1 IH];
    intros out2 H2.
  - remember (@nil N) as text eqn:Ht.
    destruct H2 as [|m' rest' out' Hlen' Hm' H2|c' rest' out' Hm' H2];
      [reflexivity| |discriminate].
    destruct m'; [|discriminate].
    destruct pat; [congruence|discriminate].
  - remember (m ++ rest) as text eqn:Ht.
    destruct H2 as [|m' rest' out' Hlen' Hm' H2|c' rest' out' Hm' H2].
    + destruct m; [|discriminate].
      destruct pat; [congruence|discriminate].
    + destruct (app_inj_length _ m' m rest' rest) as [-> ->];
        [congruence|assumption|].
      f_equal. now apply IH.
    + rewrite Ht, match_here_app in Hm' by assumption. congruence.
  - remember (c :: rest) as text eqn:Ht.
    destruct H2 as [|m' rest' out' Hlen' Hm' H2|c' rest' out' Hm' H2];
      [discriminate| |].
    + rewrite match_here_app in Hm by assumption. congruence.
    + injection Ht as -> ->. f_equal. now apply IH.
Qed.

(** The fuel [compile_template] gives is enough: the fuel never runs
    out. *)
Lemma until_gt_length (s name rest : pystr) :
  until_gt s = Some (name, rest) -> (List.length rest < List.length s)%nat.
Proof.
  revert name rest; induction s as [|c s IH]; intros name rest H;
    [discriminate|].
  cbn [until_gt] in H. destruct (N.eqb c 62).
  - injection H as _ <-. simpl. lia.
  - destruct (until_gt s) as [[name' rest']|]; [|discriminate].
    injection H as _ <-. specialize (IH name' rest' eq_refl). simpl. lia.
Qed.

Lemma parse_template_fuel (fuel : nat) :
  forall s : pystr,
    (List.length s <= fuel)%nat ->
    parse_template fuel s <> Raise RecursionError.
Proof.
  induction fuel as [|fuel IH]; intros s Hlen.
  - destruct s; [discriminate|simpl in Hlen; lia].
  - assert (Hrec : forall (x : pystr) (k : template -> template),
               (List.length x <= fuel)%nat ->
               (t <- parse_template fuel x ;; Ok (k t))
               <> Raise RecursionError).
    { intros x k Hx. specialize (IH x Hx).
      destruct (parse_template fuel x); cbn [bind]; congruence. }
    destruct s as [|c rest]; [discriminate|].
    cbn [parse_template]. simpl in Hlen.
    destruct (negb (c =? 92)%N);
      [apply (Hrec rest (cons (TLit c))); lia|].
    destruct rest as [|e r1]; [discriminate|]. simpl in Hlen.
    destruct (e =? 103)%N.
    { destruct r1 as [|lt r2]; [discriminate|]. simpl in Hlen.
      destruct (negb (lt =? 60)%N); [discriminate|].
      destruct (until_gt r2) as [[name r3]|] eqn:Hgt; [|discriminate].
      apply until_gt_length in Hgt.
      destruct name; [discriminate|].
      destruct (all_digits (n :: name) && (decimal_val (n :: name) =? 0)%N);
        [|discriminate].
      apply (Hrec r3 (cons TGroup0)). lia. }
    destruct (e =? 48)%N.
    { destruct r1 as [|d1 r2]; [discriminate|]. simpl in Hlen.
      destruct (is_octdigit d1).
      - destruct r2 as [|d2 r3]; [discriminate|]. simpl in Hlen.
        destruct (is_octdigit d2).
        + apply (Hrec r3 (cons (TLit _))). lia.
        + apply (Hrec (d2 :: r3) (cons (TLit _))). simpl. lia.
      - apply (Hrec (d1 :: r2) (cons (TLit _))). simpl. lia. }
    destruct (is_digit e).
    { destruct r1 as [|d1 [|d2 r3]]; try discriminate. simpl in Hlen.
      destruct (is_digit d1 && is_octdigit e && is_octdigit d1
                && is_octdigit d2); [|discriminate].
      match goal with
      | |- context [if ?b then _ else _] => destruct b
      end; [discriminate|].
      apply (Hrec r3 (cons (TLit _))). lia. }
    destruct (template_escape e).
    { apply (Hrec r1 (cons (TLit _))). lia. }
    destruct (is_ascii_letter e); [discriminate|].
    apply (Hrec r1 (fun t => TLit 92 :: TLit e :: t)). lia.
Qed.

Lemma compile_template_total (repl : pystr) :
  (exists t, compile_template repl = Ok t)
  \/ compile_template repl = Raise ReError.
Proof.
  unfold compile_template.
  pose proof (parse_template_fuel (S (List.length repl)) repl
                ltac:(lia)) as Hfuel.
  assert (Hclass : forall fuel s e,
             parse_template fuel s = Raise e ->
             e = ReError \/ e = RecursionError).
  { induction fuel as [|fuel IH]; intros s e H.
    - destruct s; [discriminate|]. injection H as <-. now right.
    - assert (Hrec : forall (x : pystr) (k : template -> template),
                 (t <- parse_template fuel x ;; Ok (k t)) = Raise e ->
                 e = ReError \/ e = RecursionError).
      { intros x k Hx. destruct (parse_template fuel x) eqn:E;
          cbn [bind] in Hx; [discriminate|].
        injection Hx as <-. now apply (IH x). }
      destruct s as [|c rest]; [discriminate|].
      cbn [parse_template] in H.
      repeat match type of H with
             | bind _ _ = _ => apply Hrec in H; exact H
             | Raise _ = Raise _ => injection H as <-; now left
             | Ok _ = Raise _ => discriminate
             | (if ?b then _ else _) = _ => destruct b
             | match ?x with _ => _ end = _ => destruct x
             end. }
  destruct (parse_template (S (List.length repl)) repl) as [t|e] eqn:E.
  - left. now exists t.
  - right. destruct (Hclass _ _ _ E) as [->| ->]; [reflexivity|].
    contradiction.
Qed.

(** * Properties of the schema mapper *)

Lemma replace_placeholders_literal (text c u : pystr) :
  backslash_free c = true -> backslash_free u = true ->
  replace_placeholders (PStr text) (PStr c) (PStr u)
  = Ok (PStr (substitute text c u)).
Proof.
  intros Hc Hu. unfold replace_placeholders, substitute.
  destruct text as [|x text]; [reflexivity|].
  cbn [truthy negb].
  rewrite (re_sub_literal char_token c (x :: text) Hc). cbn [bind].
  rewrite (re_sub_literal user_token u _ Hu). reflexivity.
Qed.

Lemma substitute_no_token (text c u : pystr) :
  occurs char_token text = false ->
  occurs user_token text = false ->
  substitute text c u = text.
Proof.
  intros Hc Hu. unfold substitute, sub_literal.
  rewrite (sub_scan_no_occurrence _ _ _ Hc).
  apply sub_scan_no_occurrence, Hu.
Qed.

Lemma py_get_dict (d : pydict) (k : pystr) (default : pyval) :
  py_get (PDict d) k default = Ok (field d k default).
Proof. reflexivity. Qed.

Lemma field_text (d : pydict) (k default : pystr) :
  is_text_field d k = true ->
  field d k (PStr default) = PStr (text_of d k default).
Proof.
  unfold is_text_field, field, text_of.
  destruct (dict_get d k) as [[]|]; intros H; try discriminate; reflexivity.
Qed.

Lemma persona_part_text (d : pydict) (k : pystr) :
  is_text_field d k = true ->
  persona_part (PDict d) k = Ok (map PStr (nonempty_text d k)).
Proof.
  unfold is_text_field, persona_part, nonempty_text, py_contains, dict_has,
    py_getitem.
  destruct (dict_get d k) as [[| | |[|c s]| |]|]; intros H;
    try discriminate; reflexivity.
Qed.

Lemma all_strs_map (l : list pystr) : all_strs (map PStr l) = Some l.
Proof.
  induction l as [|s l IH]; simpl; [reflexivity|now rewrite IH].
Qed.

Lemma persona_desc_text (l1 l2 : list pystr) (fallback sep : pystr) :
  match map PStr l1 ++ map PStr l2 with
  | [] => Ok (PStr fallback)
  | _ :: _ => py_join sep (map PStr l1 ++ map PStr l2)
  end
  = Ok (PStr match l1 ++ l2 with
             | [] => fallback
             | _ :: _ => join_strs sep (l1 ++ l2)
             end).
Proof.
  rewrite <- map_app. destruct (l1 ++ l2) as [|s l] eqn:E; [reflexivity|].
  unfold py_join. now rewrite all_strs_map.
Qed.

Lemma tavern_typed_field (d : pydict) (k : pystr) :
  tavern_typed d = true -> In k tavern_fields -> is_text_field d k = true.
Proof.
  unfold tavern_typed. rewrite forallb_forall. auto.
Qed.

(** The record built from a card that is not wrapped, has strings in its
    fields and whose names hold no backslash. *)
Lemma map_tavern_to_internal_typed (d : pydict) (u : pystr) :
  dict_has d (str "data") = false ->
  tavern_typed d = true ->
  backslash_free (card_name d) = true -> backslash_free u = true ->
  map_tavern_to_internal (PDict d) (PStr u)
  = Ok (PDict
          [ (str "ai_name", PStr (card_name d));
            (str "persona_desc",
              PStr (substitute (persona_join d) (card_name d) u));
            (str "greeting",
              PStr (substitute (greeting_text d) (card_name d) u));
            (str "scenario",
              PStr (substitute (text_of d (str "scenario") [])
                      (card_name d) u));
            (str "mes_example",
              PStr (substitute (text_of d (str "mes_example") [])
                      (card_name d) u));
            (str "raw_card", PDict d) ]).
Proof.
  intros Hdata Htyped Hname Hu.
  assert (Hf : forall k, In k tavern_fields -> is_text_field d k = true)
    by (intros k; apply tavern_typed_field, Htyped).
  unfold map_tavern_to_internal.
  cbn [py_contains bind]. rewrite Hdata. cbn [bind].
  rewrite !py_get_dict. cbn [bind].
  rewrite (field_text d (str "name") (str "BOT"))
    by (apply Hf; simpl; tauto).
  fold (card_name d).
  rewrite (persona_part_text d (str "personality"))
    by (apply Hf; simpl; tauto).
  cbn [bind].
  rewrite (persona_part_text d (str "description"))
    by (apply Hf; simpl; tauto).
  cbn [bind].
  rewrite persona_desc_text.
  replace (match nonempty_text d (str "personality")
                 ++ nonempty_text d (str "description") with
           | [] => str "An AI companion"
           | _ :: _ => join_strs (str " ")
                         (nonempty_text d (str "personality")
                          ++ nonempty_text d (str "description"))
           end) with (persona_join d)
    by (unfold persona_join;
        destruct (nonempty_text d (str "personality")
                  ++ nonempty_text d (str "description")); reflexivity).
  cbn [bind].
  rewrite replace_placeholders_literal by assumption. cbn [bind].
  rewrite (field_text d (str "greeting") [])
    by (apply Hf; simpl; tauto).
  cbn [bind]. rewrite ?py_get_dict. cbn [bind].
  rewrite (field_text d (str "first_mes") _)
    by (apply Hf; simpl; tauto).
  fold (greeting_text d).
  rewrite replace_placeholders_literal by assumption. cbn [bind].
  rewrite (field_text d (str "scenario") [])
    by (apply Hf; simpl; tauto).
  rewrite replace_placeholders_literal by assumption. cbn [bind].
  rewrite (field_text d (str "mes_example") [])
    by (apply Hf; simpl; tauto).
  rewrite replace_placeholders_literal by assumption. cbn [bind].
  reflexivity.
Qed.

(** * The claims on the placeholder substitution and the schema mapper *)




(** The empty card gives the fallback and the default name. *)
Example map_tavern_to_internal_empty_card :
  map_tavern_to_internal (PDict []) (PStr (str "YOU"))
  = Ok (PDict
          [ (str "ai_name", PStr (str "BOT"));
            (str "persona_desc", PStr (str "An AI companion"));
            (str "greeting", PStr []);
            (str "scenario", PStr []);
            (str "mes_example", PStr []);
            (str "raw_card", PDict []) ]).
Proof. reflexivity. Qed.

(** C4, as stated, fails: a [{{user}}] token brought in by [char_name] is
    expanded by the second pass.  With text ["{{char}}"], the name
    ["{{user}}"] and the user ["Bob"] the output is ["Bob"], and the token
    is gone. *)
Lemma token_in_char_name_is_expanded :
  is_substring user_token (str "{{user}}") = true
  /\ replace_placeholders (PStr (str "{{char}}")) (PStr (str "{{user}}"))
       (PStr (str "Bob")) = Ok (PStr (str "Bob"))
  /\ is_substring user_token (str "Bob") = false.
Proof. repeat split. Qed.

(** C4 (amended).  For names without a backslash the substitution is two
    literal passes, the second over the output of the first: every match
    of [{{char}}] in the text is replaced by [char_name], then every match
    of [{{user}}] in that result, the inserted [char_name] included, is
    replaced by [user_name].  Within a pass the inserted name is written
    as it is and is not read again. *)
Theorem replace_placeholders_two_passes (text c u : pystr) :
  backslash_free c = true ->
  backslash_free u = true ->
  exists mid out,
    replaced char_token c text mid
    /\ replaced user_token u mid out
    /\ replace_placeholders (PStr text) (PStr c) (PStr u) = Ok (PStr out).
Proof.
  intros Hc Hu.
  exists (sub_literal char_token c text), (substitute text c u).
  split; [apply sub_literal_replaced; discriminate|].
  split; [apply sub_literal_replaced; discriminate|].
  now apply replace_placeholders_literal.
Qed.

Lemma replace_placeholders_two_passes_bob :
  exists mid out,
    replaced char_token (str "{{user}} and {{char}}") (str "{{char}}") mid
    /\ replaced user_token (str "Bob") mid out
    /\ replace_placeholders (PStr (str "{{char}}"))
         (PStr (str "{{user}} and {{char}}")) (PStr (str "Bob"))
       = Ok (PStr out).
Proof.
  apply (replace_placeholders_two_passes (str "{{char}}")
           (str "{{user}} and {{char}}") (str "Bob")); reflexivity.
Defined.

(** A [{{char}}] token inside either name stays; only a [{{user}}] token
    inside [char_name] is expanded. *)
Example replace_placeholders_names_with_tokens :
  replace_placeholders (PStr (str "{{char}} meets {{user}}"))
    (PStr (str "<{{user}}|{{char}}>")) (PStr (str "[{{char}}]"))
  = Ok (PStr (str "<[{{char}}]|{{char}}> meets [{{char}}]")).
Proof. reflexivity. Qed.

(** C5.  The names are handed to [re.sub] as replacement templates, so a
    backslash in a name is read as an escape: the name [\o/] makes the
    call raise, and in [C:\temp] the two characters [\t] become a tab.
    The token is then not replaced by the name. *)
Theorem replace_placeholders_backslash_name :
  replace_placeholders (PStr (str "Hi {{char}}")) (PStr (str "\o/"))
    (PStr (str "YOU")) = Raise ReError
  /\ replace_placeholders (PStr (str "no token here")) (PStr (str "\o/"))
       (PStr (str "YOU")) = Raise ReError
  /\ replace_placeholders (PStr (str "{{char}}")) (PStr (str "C:\temp"))
       (PStr (str "YOU"))
     = Ok (PStr [67; 58; 9; 101; 109; 112]%N)
  /\ str "C:\temp" = [67; 58; 92; 116; 101; 109; 112]%N.
Proof. repeat split. Qed.

(** With names that hold no backslash the contract of C5 is met: text
    without a token is returned as it is, and so is a falsy text, whatever
    the names. *)
Lemma replace_placeholders_no_token (text c u : pystr) :
  backslash_free c = true -> backslash_free u = true ->
  occurs char_token text = false ->
  occurs user_token text = false ->
  replace_placeholders (PStr text) (PStr c) (PStr u) = Ok (PStr text).
Proof.
  intros Hc Hu Hct Hut.
  rewrite replace_placeholders_literal by assumption.
  now rewrite substitute_no_token.
Qed.

Lemma replace_placeholders_falsy (text c u : pyval) :
  truthy text = false -> replace_placeholders text c u = Ok text.
Proof.
  intros H. unfold replace_placeholders. now rewrite H.
Qed.

Example replace_placeholders_case_insensitive :
  replace_placeholders (PStr (str "{{CHAR}} likes {{User}}"))
    (PStr (str "Ada")) (PStr (str "Bob"))
  = Ok (PStr (str "Ada likes Bob")).
Proof. reflexivity. Qed.

(** C6, as stated, fails: a card is unwrapped once.  For
    [{data: {data: {name: "X"}, name: "Y"}}] the record is built from
    [card['data']], whose name is ["Y"]; calling the function on
    [card['data']] unwraps that card in turn and gives the name ["X"]. *)
Lemma unwrapping_is_one_level :
  let inner := PDict [ (str "data", PDict [ (str "name", PStr (str "X")) ]);
                       (str "name", PStr (str "Y")) ] in
  let card := PDict [ (str "data", inner) ] in
  py_getitem card (str "data") = Ok inner
  /\ (r <- map_tavern_to_internal card (PStr (str "YOU")) ;;
      py_getitem r (str "ai_name")) = Ok (PStr (str "Y"))
  /\ (r <- map_tavern_to_internal inner (PStr (str "YOU")) ;;
      py_getitem r (str "ai_name")) = Ok (PStr (str "X"))
  /\ map_tavern_to_internal card (PStr (str "YOU"))
     <> map_tavern_to_internal inner (PStr (str "YOU")).
Proof.
  cbv zeta. split; [reflexivity|]. split; [reflexivity|].
  split; [reflexivity|]. vm_compute. discriminate.
Qed.

Lemma map_tavern_to_internal_raw_card (card user_name r : pyval) :
  map_tavern_to_internal card user_name = Ok r ->
  exists tavern_card,
    (wrapped <- py_contains (str "data") card ;;
     if wrapped then py_getitem card (str "data") else Ok card)
    = Ok tavern_card
    /\ py_getitem r (str "raw_card") = Ok tavern_card.
Proof.
  unfold map_tavern_to_internal. intros H.
  destruct (py_contains (str "data") card) as [wrapped|e];
    [|discriminate].
  cbn [bind] in H |- *.
  destruct (if wrapped then py_getitem card (str "data") else Ok card)
    as [tavern_card|e]; [|discriminate].
  exists tavern_card. split; [reflexivity|].
  cbn [bind] in H.
  repeat match type of H with
         | bind ?x _ = Ok _ =>
             destruct x; cbn [bind] in H; [|discriminate]
         end.
  injection H as <-. reflexivity.
Qed.

(** C6 (amended).  A card with the key [data] is replaced by
    [card['data']], one level only, and the outer keys are dropped: when
    [card['data']] has itself no key [data], the call behaves as the call
    on [card['data']]; and whenever a record is returned, its [raw_card]
    is [card['data']] for a card with the key [data], and the card itself
    for a mapping without it. *)
Theorem map_tavern_to_internal_unwraps (d : pydict) (inner user_name : pyval) :
  dict_get d (str "data") = Some inner ->
  (py_contains (str "data") inner = Ok false ->
   map_tavern_to_internal (PDict d) user_name
   = map_tavern_to_internal inner user_name)
  /\ (forall r, map_tavern_to_internal (PDict d) user_name = Ok r ->
                py_getitem r (str "raw_card") = Ok inner)
  /\ (forall r, map_tavern_to_internal inner user_name = Ok r ->
                py_contains (str "data") inner = Ok false ->
                py_getitem r (str "raw_card") = Ok inner).
Proof.
  intros Hd. split; [|split].
  - intros Hinner. unfold map_tavern_to_internal.
    rewrite Hinner. cbn [py_contains py_getitem bind].
    unfold dict_has. rewrite Hd. reflexivity.
  - intros r Hr.
    destruct (map_tavern_to_internal_raw_card _ _ _ Hr) as (c & Hc & Hraw).
    cbn [py_contains py_getitem bind] in Hc. unfold dict_has in Hc.
    rewrite Hd in Hc. injection Hc as <-. exact Hraw.
  - intros r Hr Hinner.
    destruct (map_tavern_to_internal_raw_card _ _ _ Hr) as (c & Hc & Hraw).
    rewrite Hinner in Hc. cbn [bind] in Hc. injection Hc as <-. exact Hraw.
Qed.

(** The wrapped card [{data: {name: "X"}}] gives the name ["X"]. *)
Lemma map_tavern_to_internal_unwraps_x :
  map_tavern_to_internal
    (PDict [ (str "data", PDict [ (str "name", PStr (str "X")) ]) ])
    (PStr (str "YOU"))
  = map_tavern_to_internal (PDict [ (str "name", PStr (str "X")) ])
      (PStr (str "YOU"))
  /\ (r <- map_tavern_to_internal
             (PDict [ (str "data", PDict [ (str "name", PStr (str "X")) ]) ])
             (PStr (str "YOU")) ;;
      py_getitem r (str "ai_name")) = Ok (PStr (str "X")).
Proof.
  split; [|reflexivity].
  apply (map_tavern_to_internal_unwraps
           [ (str "data", PDict [ (str "name", PStr (str "X")) ]) ]
           (PDict [ (str "name", PStr (str "X")) ]) (PStr (str "YOU")));
    reflexivity.
Defined.

(** C7.  For every internal record, [map_internal_to_tavern] returns a
    card of exactly fourteen keys: [description] and [personality] both
    hold the record's [persona_desc], [first_mes] its [greeting],
    [scenario] and [mes_example] their namesakes, each the record's own
    value, unchanged, or the empty string when the key is absent; the
    metadata fields hold their constants. *)
Theorem map_internal_to_tavern_card (d : pydict) :
  exists card,
    map_internal_to_tavern (PDict d) = Ok (PDict card)
    /\ map fst card
       = [ str "name"; str "description"; str "personality";
           str "first_mes"; str "scenario"; str "mes_example";
           str "creator_notes"; str "system_prompt";
           str "post_history_instructions"; str "tags"; str "creator";
           str "character_version"; str "spec"; str "spec_version" ]
    /\ dict_get card (str "description")
       = Some (field d (str "persona_desc") (PStr []))
    /\ dict_get card (str "personality")
       = Some (field d (str "persona_desc") (PStr []))
    /\ dict_get card (str "first_mes")
       = Some (field d (str "greeting") (PStr []))
    /\ dict_get card (str "scenario")
       = Some (field d (str "scenario") (PStr []))
    /\ dict_get card (str "mes_example")
       = Some (field d (str "mes_example") (PStr []))
    /\ dict_get card (str "creator_notes")
       = Some (PStr (str "Exported from BrainDancev2"))
    /\ dict_get card (str "system_prompt") = Some (PStr [])
    /\ dict_get card (str "post_history_instructions") = Some (PStr [])
    /\ dict_get card (str "tags") = Some (PList [])
    /\ dict_get card (str "creator") = Some (PStr (str "BrainDancev2"))
    /\ dict_get card (str "character_version") = Some (PStr (str "1.0"))
    /\ dict_get card (str "spec") = Some (PStr (str "chara_card_v2"))
    /\ dict_get card (str "spec_version") = Some (PStr (str "2.0")).
Proof.
  eexists. split; [reflexivity|]. repeat split.
Qed.

(** Text is exported as it is: a token in the record stays in the card. *)
Example map_internal_to_tavern_keeps_tokens :
  (card <- map_internal_to_tavern
             (PDict [ (str "persona_desc", PStr (str "{{char}} is kind"));
                      (str "greeting", PStr (str "Hi {{user}}")) ]) ;;
   d <- py_getitem card (str "description") ;;
   g <- py_getitem card (str "first_mes") ;;
   Ok (d, g))
  = Ok (PStr (str "{{char}} is kind"), PStr (str "Hi {{user}}")).
Proof. reflexivity. Qed.

(** C10.  [map_internal_to_tavern] returns a card for every mapping: a
    missing [ai_name] gives the name ['BOT'], and a missing
    [persona_desc], [greeting], [scenario] or [mes_example] gives the
    empty string in the fields filled from it. *)
Theorem map_internal_to_tavern_defaults (d : pydict) :
  exists card,
    map_internal_to_tavern (PDict d) = Ok (PDict card)
    /\ dict_get card (str "name")
       = Some (field d (str "ai_name") (PStr (str "BOT")))
    /\ (dict_get d (str "ai_name") = None ->
        dict_get card (str "name") = Some (PStr (str "BOT")))
    /\ (dict_get d (str "persona_desc") = None ->
        dict_get card (str "description") = Some (PStr [])
        /\ dict_get card (str "personality") = Some (PStr []))
    /\ (dict_get d (str "greeting") = None ->
        dict_get card (str "first_mes") = Some (PStr []))
    /\ (dict_get d (str "scenario") = None ->
        dict_get card (str "scenario") = Some (PStr []))
    /\ (dict_get d (str "mes_example") = None ->
        dict_get card (str "mes_example") = Some (PStr [])).
Proof.
  eexists. split; [reflexivity|]. split; [reflexivity|]. cbn. unfold field.
  split; [intros ->; reflexivity|].
  split; [intros ->; split; reflexivity|].
  split; [intros ->; reflexivity|].
  split; intros ->; reflexivity.
Qed.

(** The empty record gives the card of defaults. *)
Lemma map_internal_to_tavern_defaults_empty :
  exists card,
    map_internal_to_tavern (PDict []) = Ok (PDict card)
    /\ dict_get card (str "name") = Some (PStr (str "BOT"))
    /\ dict_get card (str "description") = Some (PStr [])
    /\ dict_get card (str "personality") = Some (PStr [])
    /\ dict_get card (str "first_mes") = Some (PStr [])
    /\ dict_get card (str "scenario") = Some (PStr [])
    /\ dict_get card (str "mes_example") = Some (PStr []).
Proof.
  destruct (map_internal_to_tavern_defaults [])
    as (card & Hcard & _ & Hname & Hpersona & Hgreet & Hscen & Hmes).
  exists card. split; [exact Hcard|].
  split; [apply Hname; reflexivity|].
  split; [apply Hpersona; reflexivity|].
  split; [apply Hpersona; reflexivity|].
  split; [apply Hgreet; reflexivity|].
  split; [apply Hscen; reflexivity|].
  apply Hmes; reflexivity.
Defined.

(** * Properties of the codec *)

Ltac Zify.zify_post_hook ::= Z.to_euclidean_division_equations.

(** Settle the comparisons of a goal whose operands arithmetic decides. *)
Ltac settle_tests :=
  repeat match goal with
    | |- context [(?a <? ?b)%N] =>
        first
          [ replace (a <? b)%N with true by (symmetry; apply N.ltb_lt; lia)
          | replace (a <? b)%N with false by (symmetry; apply N.ltb_ge; lia) ]
    | |- context [(?a <=? ?b)%N] =>
        first
          [ replace (a <=? b)%N with true by (symmetry; apply N.leb_le; lia)
          | replace (a <=? b)%N with false by (symmetry; apply N.leb_gt; lia) ]
    | |- context [(?a =? ?b)%N] =>
        first
          [ replace (a =? b)%N with true by (symmetry; apply N.eqb_eq; lia)
          | replace (a =? b)%N with false by (symmetry; apply N.eqb_neq; lia) ]
    end.

Lemma Some_inj (A : Type) (a b : A) : Some a = Some b -> a = b.
Proof. now intros [= ->]. Qed.

(** ** UTF-8 *)

Lemma utf8_decode_encode_char (c : N) (b rest : bytes) :
  utf8_encode_char c = Some b ->
  utf8_decode (b ++ rest) = (s <- utf8_decode rest ;; Ok (c :: s)).
Proof.
  unfold utf8_encode_char, is_surrogate.
  destruct (N.ltb_spec c 128).
  { intros [= <-]. cbn [app utf8_decode]. settle_tests. reflexivity. }
  destruct (N.ltb_spec c 2048).
  { remember (192 + c / 64)%N as b0 eqn:E0.
    remember (128 + c mod 64)%N as b1 eqn:E1.
    intros [= <-].
    cbn [app utf8_decode]. unfold is_continuation. cbv zeta.
    replace ((b0 - 192) * 64 + (b1 - 128))%N with c by lia.
    settle_tests. reflexivity. }
  destruct (N.ltb_spec c 65536).
  { destruct (N.leb_spec 55296 c); cbn [andb];
      [destruct (N.leb_spec c 57343); [discriminate|]|];
      remember (224 + c / 4096)%N as b0 eqn:E0;
      remember (128 + (c / 64) mod 64)%N as b1 eqn:E1;
      remember (128 + c mod 64)%N as b2 eqn:E2;
      intros [= <-];
      cbn [app utf8_decode]; unfold is_continuation; cbv zeta;
      replace ((b0 - 224) * 4096 + (b1 - 128) * 64 + (b2 - 128))%N
        with c by lia;
      settle_tests; reflexivity. }
  destruct (N.ltb_spec c 1114112); [|discriminate].
  remember (240 + c / 262144)%N as b0 eqn:E0.
  remember (128 + (c / 4096) mod 64)%N as b1 eqn:E1.
  remember (128 + (c / 64) mod 64)%N as b2 eqn:E2.
  remember (128 + c mod 64)%N as b3 eqn:E3.
  intros [= <-].
  cbn [app utf8_decode]. unfold is_continuation. cbv zeta.
  replace ((b0 - 240) * 262144 + (b1 - 128) * 4096 + (b2 - 128) * 64
           + (b3 - 128))%N with c by lia.
  settle_tests. reflexivity.
Qed.

Lemma utf8_decode_encode (s : pystr) (b : bytes) :
  utf8_encode s = Ok b -> utf8_decode b = Ok s.
Proof.
  revert b; induction s as [|c s IH]; intros b H; cbn [utf8_encode] in H.
  - now injection H as <-.
  - destruct (utf8_encode_char c) as [bc|] eqn:Ec; [|discriminate].
    destruct (utf8_encode s) as [bs|] eqn:Es; [|discriminate].
    cbn [bind] in H. injection H as <-.
    rewrite (utf8_decode_encode_char c bc bs Ec).
    now rewrite (IH bs eq_refl).
Qed.

Lemma utf8_encode_char_encodable (c : N) :
  encodable_char c = true -> exists b, utf8_encode_char c = Some b.
Proof.
  unfold encodable_char, utf8_encode_char. intros H.
  apply andb_true_iff in H as [Hlt Hs].
  apply negb_true_iff in Hs. rewrite Hs, Hlt.
  repeat match goal with
         | |- context [if ?t then _ else _] => destruct t
         end; eexists; reflexivity.
Qed.

Lemma utf8_encode_encodable (s : pystr) :
  forallb encodable_char s = true -> exists b, utf8_encode s = Ok b.
Proof.
  induction s as [|c s IH]; intros H; [now exists []|].
  cbn [forallb] in H. apply andb_true_iff in H as [Hc Hs].
  destruct (utf8_encode_char_encodable c Hc) as [bc Ec].
  destruct (IH Hs) as [bs Es].
  exists (bc ++ bs). cbn [utf8_encode]. now rewrite Ec, Es.
Qed.

Lemma utf8_encode_char_bytes (c : N) (b : bytes) :
  utf8_encode_char c = Some b -> Forall (fun x => (x < 256)%N) b.
Proof.
  unfold utf8_encode_char.
  destruct (N.ltb_spec c 128);
    [intros Hb; apply Some_inj in Hb; subst b; repeat apply Forall_cons;
     try apply Forall_nil; lia|].
  destruct (N.ltb_spec c 2048);
    [intros Hb; apply Some_inj in Hb; subst b; repeat apply Forall_cons;
     try apply Forall_nil; lia|].
  destruct (N.ltb_spec c 65536).
  { destruct (is_surrogate c); [discriminate|].
    intros Hb; apply Some_inj in Hb; subst b; repeat apply Forall_cons;
      try apply Forall_nil; lia. }
  destruct (N.ltb_spec c 1114112); [|discriminate].
  intros Hb; apply Some_inj in Hb; subst b; repeat apply Forall_cons;
    try apply Forall_nil; lia.
Qed.

Lemma utf8_encode_bytes (s : pystr) (b : bytes) :
  utf8_encode s = Ok b -> Forall (fun x => (x < 256)%N) b.
Proof.
  revert b; induction s as [|c s IH]; intros b H; cbn [utf8_encode] in H.
  - injection H as <-. constructor.
  - destruct (utf8_encode_char c) as [bc|] eqn:Ec; [|discriminate].
    destruct (utf8_encode s) as [bs|] eqn:Es; [|discriminate].
    cbn [bind] in H. injection H as <-.
    apply Forall_app. split; [now apply (utf8_encode_char_bytes c)|].
    now apply IH.
Qed.

(** ** Base64 *)

Lemma b64_value_char (v : N) :
  (v < 64)%N -> b64_value (b64_char v) = Some v.
Proof.
  intros Hv. unfold b64_char.
  destruct (N.ltb_spec v 26);
    [|destruct (N.ltb_spec v 52);
      [|destruct (N.ltb_spec v 62); [|destruct (N.eqb_spec v 62)]]];
    unfold b64_value, is_ascii_upper, is_ascii_lower, is_digit;
    settle_tests; cbn [andb]; f_equal; lia.
Qed.

Lemma b64_char_range (v : N) :
  (v < 64)%N -> (b64_char v =? 61)%N = false /\ (b64_char v < 128)%N.
Proof.
  intros Hv. unfold b64_char.
  destruct (N.ltb_spec v 26);
    [|destruct (N.ltb_spec v 52);
      [|destruct (N.ltb_spec v 62); [|destruct (N.eqb_spec v 62)]]];
    (split; [apply N.eqb_neq|]; lia).
Qed.

Lemma a2b_base64_data (q l p v : N) (s : pystr) :
  (v < 64)%N ->
  a2b_base64 q l p (b64_char v :: s)
  = if (q =? 0)%N then a2b_base64 1 v 0 s
    else if (q =? 1)%N then
      rest <- a2b_base64 2 (v mod 16) 0 s ;; Ok ((l * 4 + v / 16)%N :: rest)
    else if (q =? 2)%N then
      rest <- a2b_base64 3 (v mod 4) 0 s ;; Ok ((l * 16 + v / 4)%N :: rest)
    else
      rest <- a2b_base64 0 0 0 s ;; Ok ((l * 64 + v)%N :: rest).
Proof.
  intros Hv. cbn [a2b_base64].
  destruct (b64_char_range v Hv) as [-> _].
  now rewrite b64_value_char.
Qed.

Lemma a2b_base64_quad (x y z : N) (s : pystr) :
  (x < 256)%N -> (y < 256)%N -> (z < 256)%N ->
  a2b_base64 0 0 0
    (b64_char (x / 4) :: b64_char ((x mod 4) * 16 + y / 16)
     :: b64_char ((y mod 16) * 4 + z / 64) :: b64_char (z mod 64) :: s)
  = (rest <- a2b_base64 0 0 0 s ;; Ok (x :: y :: z :: rest)).
Proof.
  intros Hx Hy Hz.
  rewrite !a2b_base64_data by lia.
  change (0 =? 0)%N with true. change (1 =? 0)%N with false.
  change (1 =? 1)%N with true. change (2 =? 0)%N with false.
  change (2 =? 1)%N with false. change (2 =? 2)%N with true.
  change (3 =? 0)%N with false. change (3 =? 1)%N with false.
  change (3 =? 2)%N with false. cbv iota.
  replace (x / 4 * 4 + (x mod 4 * 16 + y / 16) / 16)%N with x by lia.
  replace ((x mod 4 * 16 + y / 16) mod 16 * 16
           + (y mod 16 * 4 + z / 64) / 4)%N with y by lia.
  replace ((y mod 16 * 4 + z / 64) mod 4 * 64 + z mod 64)%N with z by lia.
  destruct (a2b_base64 0 0 0 s); reflexivity.
Qed.

Lemma a2b_base64_encode (n : nat) :
  forall b : bytes,
    (List.length b <= n)%nat ->
    Forall (fun x => (x < 256)%N) b ->
    a2b_base64 0 0 0 (b64encode b) = Ok b.
Proof.
  induction n as [n IH] using lt_wf_ind. intros b Hlen Hb.
  destruct b as [|x [|y [|z rest]]].
  - reflexivity.
  - inversion_clear Hb as [|? ? Hx _].
    cbn [b64encode].
    rewrite !a2b_base64_data by lia.
    change (0 =? 0)%N with true. change (1 =? 0)%N with false.
    change (1 =? 1)%N with true. cbv iota.
    cbn [a2b_base64]. change (61 =? 61)%N with true.
    change (2 <=? 2)%N with true. change (4 <=? 2 + (0 + 1))%N with false.
    change (4 <=? 2 + (0 + 1 + 1))%N with true. cbv iota. cbn [bind].
    do 2 f_equal. lia.
  - inversion_clear Hb as [|? ? Hx Hb']. inversion_clear Hb' as [|? ? Hy _].
    cbn [b64encode].
    rewrite !a2b_base64_data by lia.
    change (0 =? 0)%N with true. change (1 =? 0)%N with false.
    change (1 =? 1)%N with true. change (2 =? 0)%N with false.
    change (2 =? 1)%N with false. change (2 =? 2)%N with true. cbv iota.
    cbn [a2b_base64]. change (61 =? 61)%N with true.
    change (2 <=? 3)%N with true. change (4 <=? 3 + (0 + 1))%N with true.
    cbv iota. cbn [bind].
    do 2 f_equal; [lia|]. f_equal. lia.
  - inversion_clear Hb as [|? ? Hx Hb']. inversion_clear Hb' as [|? ? Hy Hb].
    inversion_clear Hb as [|? ? Hz Hrest].
    cbn [b64encode app].
    rewrite a2b_base64_quad by assumption.
    rewrite (IH (List.length rest)) with (b := rest);
      [reflexivity|simpl in Hlen; lia|lia|assumption].
Qed.

Lemma b64encode_ascii (b : bytes) :
  Forall (fun x => (x < 256)%N) b -> is_ascii (b64encode b) = true.
Proof.
  remember (List.length b) as n eqn:Hn. revert b Hn.
  induction n as [n IH] using lt_wf_ind. intros b Hn Hb.
  assert (Hc : forall v, (v < 64)%N -> (b64_char v <? 128)%N = true)
    by (intros v Hv; apply N.ltb_lt, b64_char_range, Hv).
  destruct b as [|x [|y [|z rest]]]; [reflexivity| | |].
  - inversion_clear Hb as [|? ? Hx _].
    cbn [b64encode is_ascii forallb]. rewrite !Hc by lia. reflexivity.
  - inversion_clear Hb as [|? ? Hx Hb']. inversion_clear Hb' as [|? ? Hy _].
    cbn [b64encode is_ascii forallb]. rewrite !Hc by lia. reflexivity.
  - inversion_clear Hb as [|? ? Hx Hb']. inversion_clear Hb' as [|? ? Hy Hb].
    inversion_clear Hb as [|? ? Hz Hrest].
    cbn [b64encode app is_ascii forallb]. rewrite !Hc by lia.
    cbn [andb]. apply (IH (List.length rest)); [subst n; simpl; lia|
                                                 reflexivity|assumption].
Qed.

Lemma b64decode_encode (b : bytes) :
  Forall (fun x => (x < 256)%N) b ->
  b64decode (PStr (b64encode b)) = Ok b.
Proof.
  intros Hb. unfold b64decode. rewrite b64encode_ascii by assumption.
  now apply (a2b_base64_encode (List.length b)).
Qed.

(** ** JSON strings *)

Lemma hex_value_digit (v : N) :
  (v < 16)%N -> hex_value (hex_digit v) = Some v.
Proof.
  intros Hv. unfold hex_digit.
  destruct (N.ltb_spec v 10); unfold hex_value, is_digit;
    settle_tests; cbn [andb]; f_equal; lia.
Qed.

Lemma scan_string_control (c : N) (r : pystr) :
  (c < 32)%N ->
  scan_string (92 :: 117 :: 48 :: 48 :: hex_digit (c / 16)
               :: hex_digit (c mod 16) :: r)%N
  = parsed_map (cons c) (scan_string r).
Proof.
  intros Hc.
  assert (H4 : hex4 48 48 (hex_digit (c / 16)) (hex_digit (c mod 16))
               = Some c).
  { unfold hex4. change (hex_value 48) with (Some 0%N).
    rewrite !hex_value_digit by lia. f_equal. lia. }
  remember (hex_digit (c / 16)) as h1.
  remember (hex_digit (c mod 16)) as h2.
  cbn [scan_string].
  change (92 =? 34)%N with false. change (92 =? 92)%N with true.
  change (117 =? 117)%N with true. cbv iota.
  rewrite H4.
  replace (is_high_surrogate c) with false; [reflexivity|].
  unfold is_high_surrogate. settle_tests. reflexivity.
Qed.

Lemma scan_string_escaped (s rest : pystr) :
  scan_string (flat_map escape_char s ++ 34%N :: rest) = Parsed s rest.
Proof.
  induction s as [|c s IH].
  - reflexivity.
  - cbn [flat_map]. rewrite <- app_assoc.
    remember (flat_map escape_char s ++ 34%N :: rest) as tail eqn:Et.
    unfold escape_char.
    destruct (N.eqb_spec c 34) as [->|H34];
      [cbn; now rewrite IH|].
    destruct (N.eqb_spec c 92) as [->|H92];
      [cbn; now rewrite IH|].
    destruct (N.eqb_spec c 10) as [->|H10];
      [cbn; now rewrite IH|].
    destruct (N.eqb_spec c 13) as [->|H13];
      [cbn; now rewrite IH|].
    destruct (N.eqb_spec c 9) as [->|H9];
      [cbn; now rewrite IH|].
    destruct (N.eqb_spec c 12) as [->|H12];
      [cbn; now rewrite IH|].
    destruct (N.eqb_spec c 8) as [->|H8];
      [cbn; now rewrite IH|].
    destruct (N.ltb_spec c 32) as [Hlt|Hge].
    + cbn [app]. rewrite scan_string_control by assumption.
      now rewrite IH.
    + cbn [app scan_string]. settle_tests. now rewrite IH.
Qed.

Lemma scan_json_string (s rest : pystr) :
  exists tail,
    json_string s ++ rest = 34%N :: tail
    /\ scan_string tail = Parsed s rest.
Proof.
  exists (flat_map escape_char s ++ 34%N :: rest). split.
  - unfold json_string. cbn [app]. now rewrite <- app_assoc.
  - apply scan_string_escaped.
Qed.

(** ** JSON integers *)

Lemma decimal_val_snoc (l : pystr) (d : N) :
  decimal_val (l ++ [d]) = (decimal_val l * 10 + digit_val d)%N.
Proof. unfold decimal_val. now rewrite fold_left_app. Qed.

Lemma all_digits_app (l1 l2 : pystr) :
  all_digits (l1 ++ l2) = all_digits l1 && all_digits l2.
Proof.
  induction l1 as [|c l1 IH]; [reflexivity|].
  cbn [app all_digits]. now rewrite IH, andb_assoc.
Qed.

(** The digits of [n]: they are digits, they denote [n], and the first is
    not [0] unless [n] is. *)
Lemma digits_of_spec (fuel : nat) :
  forall n : N,
    (n < 2 ^ N.of_nat fuel)%N ->
    all_digits (digits_of fuel n) = true
    /\ decimal_val (digits_of fuel n) = n
    /\ exists c tl, digits_of fuel n = c :: tl
                    /\ (n <> 0%N -> c <> 48%N).
Proof.
  induction fuel as [|fuel IH]; intros n Hn.
  - change (2 ^ N.of_nat 0)%N with 1%N in Hn.
    assert (n = 0%N) by lia. subst n. cbn.
    repeat split. exists 48%N, []. split; [reflexivity|congruence].
  - cbn [digits_of].
    destruct (N.ltb_spec n 10) as [Hlt|Hge].
    + split; [|split].
      * cbn [all_digits]. unfold is_digit. settle_tests. reflexivity.
      * unfold decimal_val, digit_val. cbn [fold_left]. lia.
      * exists (48 + n)%N, []. split; [reflexivity|lia].
    + assert (Hdiv : (n / 10 < 2 ^ N.of_nat fuel)%N).
      { rewrite Nat2N.inj_succ, N.pow_succ_r' in Hn.
        apply N.Div0.div_lt_upper_bound. lia. }
      destruct (IH (n / 10)%N Hdiv) as (Hall & Hval & c & tl & Hds & Hc).
      split; [|split].
      * rewrite all_digits_app, Hall. cbn [all_digits andb].
        unfold is_digit. settle_tests. reflexivity.
      * rewrite decimal_val_snoc, Hval. unfold digit_val. lia.
      * exists c, (tl ++ [(48 + n mod 10)%N]). rewrite Hds. split;
          [reflexivity|]. intros _. apply Hc. lia.
Qed.

Lemma delimited_cases (rest : pystr) :
  delimited rest = true ->
  rest = [] \/ exists c r, rest = c :: r /\ (c = 44 \/ c = 93 \/ c = 125)%N.
Proof.
  destruct rest as [|c r]; [now left|]. cbn [delimited]. intros H. right.
  exists c, r. split; [reflexivity|].
  apply orb_true_iff in H as [H|H];
    [apply orb_true_iff in H as [H|H]|]; apply N.eqb_eq in H; tauto.
Qed.

Lemma span_digits_app (ds rest : pystr) :
  all_digits ds = true -> delimited rest = true ->
  span_digits (ds ++ rest) = (ds, rest).
Proof.
  intros Hds Hrest. induction ds as [|c ds IH].
  - destruct (delimited_cases rest Hrest) as [->|[c [r [-> Hc]]]];
      [reflexivity|].
    cbn [app span_digits]. unfold is_digit.
    destruct Hc as [ -> | [ -> | -> ] ]; reflexivity.
  - cbn [all_digits] in Hds. apply andb_true_iff in Hds as [Hc Hds].
    cbn [app span_digits]. rewrite Hc, (IH Hds). reflexivity.
Qed.

Lemma float_follows_delimited (rest : pystr) :
  delimited rest = true -> float_follows rest = false.
Proof.
  intros Hrest.
  destruct (delimited_cases rest Hrest) as [->|[c [r [-> Hc]]]];
    [reflexivity|].
  destruct r as [|d r]; [reflexivity|].
  destruct Hc as [ -> | [ -> | -> ] ]; reflexivity.
Qed.

Lemma digits_of_small (fuel : nat) (n : N) :
  (n < 10)%N -> digits_of fuel n = [(48 + n)%N].
Proof.
  intros Hn. destruct fuel; cbn [digits_of]; [reflexivity|].
  now apply N.ltb_lt in Hn as ->.
Qed.

Lemma scan_natural_digits (n : N) (rest : pystr) :
  delimited rest = true ->
  scan_natural (digits_of (N.to_nat (N.size n)) n ++ rest) = Parsed n rest.
Proof.
  intros Hrest.
  destruct (N.eq_dec n 0) as [->|Hn0]; [reflexivity|].
  assert (Hn : (n < 2 ^ N.of_nat (N.to_nat (N.size n)))%N)
    by (rewrite N2Nat.id; apply N.size_gt).
  destruct (digits_of_spec _ n Hn) as (Hall & Hval & c & tl & Hds & Hc).
  rewrite Hds in *. cbn [all_digits] in Hall.
  apply andb_true_iff in Hall as [Hdc Htl].
  cbn [app scan_natural].
  destruct (N.eqb_spec c 48) as [->|Hc48]; [now elim Hc|].
  rewrite Hdc, span_digits_app by assumption. now rewrite Hval.
Qed.

Lemma scan_number_int_repr (z : Z) (rest : pystr) :
  delimited rest = true ->
  scan_number (int_repr z ++ rest) = Parsed (PInt z) rest.
Proof.
  intros Hrest. destruct z as [|p|p].
  - cbn [int_repr app]. unfold scan_number.
    change (48 =? 45)%N with false. cbn [scan_natural].
    change (48 =? 48)%N with true. cbv iota.
    now rewrite float_follows_delimited.
  - cbn [int_repr]. unfold scan_number.
    assert (Hn : (N.pos p < 2 ^ N.of_nat (N.to_nat (N.size (N.pos p))))%N)
      by (rewrite N2Nat.id; apply N.size_gt).
    destruct (digits_of_spec _ _ Hn) as (Hall & _ & c & tl & Hds & _).
    pose proof (scan_natural_digits (N.pos p) rest Hrest) as Hscan.
    rewrite Hds in *. cbn [app] in *.
    cbn [all_digits] in Hall. apply andb_true_iff in Hall as [Hdc _].
    unfold is_digit in Hdc. apply andb_true_iff in Hdc as [Hlo Hhi].
    apply N.leb_le in Hlo, Hhi.
    replace (c =? 45)%N with false by (symmetry; apply N.eqb_neq; lia).
    rewrite Hscan, float_follows_delimited by assumption. reflexivity.
  - cbn [int_repr app]. unfold scan_number.
    change (45 =? 45)%N with true. cbv iota.
    rewrite scan_natural_digits, float_follows_delimited by assumption.
    reflexivity.
Qed.

(** ** JSON values *)

(** Evaluate the tests on the characters that are written out. *)
Ltac ground_tests :=
  repeat
    (match goal with
     | |- context [N.eqb ?a ?b] =>
         is_ground a; is_ground b;
         let r := eval vm_compute in (N.eqb a b) in
         change (N.eqb a b) with r
     | |- context [is_whitespace ?a] =>
         is_ground a;
         let r := eval vm_compute in (is_whitespace a) in
         change (is_whitespace a) with r
     end; cbn [negb andb orb skip_whitespace]; cbv iota).

(** Induction on values, through the lists and dictionaries they hold. *)
Lemma pyval_ind (P : pyval -> Prop) :
  P PNone ->
  (forall b, P (PBool b)) ->
  (forall n, P (PInt n)) ->
  (forall s, P (PStr s)) ->
  (forall l, Forall P l -> P (PList l)) ->
  (forall d, Forall (fun kv => P (snd kv)) d -> P (PDict d)) ->
  forall v, P v.
Proof.
  intros HNone HBool HInt HStr HList HDict.
  fix IH 1. intros [| b | n | s | l | d].
  - exact HNone.
  - apply HBool.
  - apply HInt.
  - apply HStr.
  - apply HList. induction l as [|x l IHl]; constructor;
      [apply IH|exact IHl].
  - apply HDict. induction d as [|[k x] d IHd]; constructor;
      [apply IH|exact IHd].
Qed.

Lemma json_dumps_list (l : list pyval) :
  json_dumps (PList l) = 91%N :: dumps_items l ++ [93%N].
Proof. reflexivity. Qed.

Lemma json_dumps_dict (d : pydict) :
  json_dumps (PDict d) = 123%N :: dumps_members d ++ [125%N].
Proof. reflexivity. Qed.

Lemma dumps_items_cons (x y : pyval) (l : list pyval) :
  dumps_items (x :: y :: l)
  = json_dumps x ++ str ", " ++ dumps_items (y :: l).
Proof. reflexivity. Qed.

Lemma dumps_members_cons (k : pystr) (x : pyval) (kv : pystr * pyval)
    (d : pydict) :
  dumps_members ((k, x) :: kv :: d)
  = json_string k ++ str ": " ++ json_dumps x ++ str ", "
      ++ dumps_members (kv :: d).
Proof. reflexivity. Qed.

Lemma int_repr_head (z : Z) :
  exists c tl,
    int_repr z = c :: tl
    /\ (is_digit c = true
        \/ (c = 45%N /\ exists d tl', tl = d :: tl' /\ is_digit d = true)).
Proof.
  assert (Hd : forall p, exists c tl,
               digits_of (N.to_nat (N.size (N.pos p))) (N.pos p) = c :: tl
               /\ is_digit c = true).
  { intros p.
    assert (Hn : (N.pos p < 2 ^ N.of_nat (N.to_nat (N.size (N.pos p))))%N)
      by (rewrite N2Nat.id; apply N.size_gt).
    destruct (digits_of_spec _ _ Hn) as (Hall & _ & c & tl & Hds & _).
    exists c, tl. split; [assumption|].
    rewrite Hds in Hall. cbn [all_digits] in Hall.
    now apply andb_true_iff in Hall as [Hc _]. }
  destruct z as [|p|p].
  - exists 48%N, []. split; [reflexivity|now left].
  - destruct (Hd p) as (c & tl & Hds & Hc). exists c, tl.
    split; [assumption|now left].
  - destruct (Hd p) as (c & tl & Hds & Hc).
    exists 45%N, (c :: tl). cbn [int_repr]. rewrite Hds.
    split; [reflexivity|]. right. split; [reflexivity|]. now exists c, tl.
Qed.

Lemma json_dumps_head (v : pyval) :
  exists c tl, json_dumps v = c :: tl /\ value_start c = true.
Proof.
  destruct v as [| [|] | n | s | l | d];
    try (eexists; eexists; split; reflexivity).
  destruct (int_repr_head n) as (c & tl & Hn & Hc).
  exists c, tl. split; [exact Hn|].
  unfold value_start. destruct Hc as [->|[-> _]]; reflexivity.
Qed.

Lemma value_start_spec (c : N) :
  value_start c = true ->
  is_whitespace c = false /\ (c =? 93)%N = false /\ (c =? 125)%N = false.
Proof.
  unfold value_start, is_digit, is_whitespace. intros H.
  repeat (apply orb_true_iff in H as [H|H]);
    try (apply N.eqb_eq in H; subst c; repeat split; reflexivity).
  apply andb_true_iff in H as [Hlo Hhi]. apply N.leb_le in Hlo, Hhi.
  repeat split; settle_tests; reflexivity.
Qed.

Lemma skip_whitespace_value (v : pyval) (rest : pystr) :
  skip_whitespace (json_dumps v ++ rest) = json_dumps v ++ rest.
Proof.
  destruct (json_dumps_head v) as (c & tl & -> & Hc).
  destruct (value_start_spec c Hc) as (Hws & _).
  cbn [app skip_whitespace]. now rewrite Hws.
Qed.

Lemma scan_once_number (fuel : nat) (z : Z) (rest : pystr) :
  scan_once (S fuel) (int_repr z ++ rest) = scan_number (int_repr z ++ rest).
Proof.
  destruct (int_repr_head z) as (c & tl & -> & Hc).
  cbn [app scan_once].
  change (str "null") with [110; 117; 108; 108]%N.
  change (str "true") with [116; 114; 117; 101]%N.
  change (str "false") with [102; 97; 108; 115; 101]%N.
  change (str "NaN") with [78; 97; 78]%N.
  change (str "Infinity") with [73; 110; 102; 105; 110; 105; 116; 121]%N.
  change (str "-Infinity")
    with [45; 73; 110; 102; 105; 110; 105; 116; 121]%N.
  cbn [starts_with].
  destruct Hc as [Hc|(-> & d & tl' & -> & Hd)].
  - unfold is_digit in Hc. apply andb_true_iff in Hc as [Hlo Hhi].
    apply N.leb_le in Hlo, Hhi.
    settle_tests. reflexivity.
  - unfold is_digit in Hd. apply andb_true_iff in Hd as [Hlo Hhi].
    apply N.leb_le in Hlo, Hhi.
    cbn [app starts_with]. settle_tests. reflexivity.
Qed.

Lemma reads_back_scalar (v : pyval) :
  match v with PList _ | PDict _ => False | _ => True end ->
  reads_back v.
Proof.
  intros Hv fuel rest Hfuel Hrest.
  destruct fuel as [|fuel]; [destruct v; simpl in Hfuel; lia|].
  destruct v as [| [|] | n | s | l | d]; try contradiction.
  - reflexivity.
  - reflexivity.
  - reflexivity.
  - cbn [json_dumps]. rewrite scan_once_number.
    now apply scan_number_int_repr.
  - destruct (scan_json_string s rest) as (tail & Heq & Hscan).
    cbn [json_dumps]. rewrite Heq. cbn [scan_once].
    change (34 =? 34)%N with true. cbv iota. now rewrite Hscan.
Qed.

Lemma dumps_items_head (x : pyval) (l : list pyval) :
  exists c tl, dumps_items (x :: l) = c :: tl /\ value_start c = true.
Proof.
  destruct (json_dumps_head x) as (c & tl & Hx & Hc).
  destruct l as [|y l].
  - exists c, tl. now split.
  - exists c, (tl ++ str ", " ++ dumps_items (y :: l)).
    rewrite dumps_items_cons, Hx. now split.
Qed.

Lemma skip_whitespace_items (x : pyval) (l : list pyval) (rest : pystr) :
  skip_whitespace (dumps_items (x :: l) ++ rest)
  = dumps_items (x :: l) ++ rest.
Proof.
  destruct (dumps_items_head x l) as (c & tl & -> & Hc).
  destruct (value_start_spec c Hc) as (Hws & _).
  cbn [app skip_whitespace]. now rewrite Hws.
Qed.

Lemma scan_elements_items (l : list pyval) :
  Forall reads_back l ->
  l <> [] ->
  forall (acc : list pyval) (fuel : nat) (rest : pystr),
    (items_weight l <= fuel)%nat ->
    scan_elements fuel (dumps_items l ++ 93%N :: rest) acc
    = Parsed (PList (rev acc ++ l)) rest.
Proof.
  induction 1 as [|x l Hx Hl IH]; intros Hne acc fuel rest Hfuel;
    [contradiction|].
  cbn [items_weight fold_right] in Hfuel. fold (items_weight l) in Hfuel.
  destruct fuel as [|fuel]; [lia|].
  cbn [scan_elements].
  destruct l as [|y l].
  - cbn [dumps_items].
    rewrite (Hx fuel (93%N :: rest)) by (reflexivity || lia).
    cbn [skip_whitespace]. ground_tests.
    cbn [rev]. reflexivity.
  - rewrite dumps_items_cons, <- !app_assoc.
    rewrite (Hx fuel) by (reflexivity || lia).
    change (str ", ") with [44; 32]%N. cbn [app skip_whitespace].
    ground_tests. rewrite skip_whitespace_items.
    rewrite IH by (discriminate || lia).
    cbn [rev]. now rewrite <- app_assoc.
Qed.

Lemma reads_back_list (l : list pyval) :
  Forall reads_back l -> reads_back (PList l).
Proof.
  intros Hl fuel rest Hfuel Hrest.
  change (weight (PList l)) with (S (items_weight l)) in Hfuel.
  destruct fuel as [|fuel]; [lia|].
  rewrite json_dumps_list. cbn [app scan_once]. rewrite <- app_assoc.
  ground_tests.
  destruct l as [|x l].
  - reflexivity.
  - rewrite skip_whitespace_items.
    destruct (dumps_items_head x l) as (c & tl & Heq & Hc).
    destruct (value_start_spec c Hc) as (_ & H93 & _).
    pose proof (scan_elements_items (x :: l) Hl) as Hscan.
    rewrite Heq in *. cbn [app] in *. rewrite H93.
    apply Hscan; [discriminate|lia].
Qed.

Lemma existsb_pystr_eqb (k : pystr) (l : list pystr) :
  existsb (pystr_eqb k) l = false -> ~ In k l.
Proof.
  induction l as [|a l IH]; intros H Hin; [contradiction|].
  cbn [existsb] in H. apply orb_false_iff in H as [Ha Hl].
  destruct Hin as [->|Hin]; [|now apply IH].
  now rewrite pystr_eqb_refl in Ha.
Qed.

Lemma distinct_NoDup (l : list pystr) : distinct l = true -> NoDup l.
Proof.
  induction l as [|k l IH]; intros H; constructor;
    cbn [distinct] in H; apply andb_true_iff in H as [Hk Hl].
  - apply existsb_pystr_eqb. now apply negb_true_iff.
  - now apply IH.
Qed.

Lemma dict_set_fresh (acc : pydict) (k : pystr) (v : pyval) :
  ~ In k (map fst acc) -> dict_set acc k v = acc ++ [(k, v)].
Proof.
  induction acc as [|[k' v'] acc IH]; intros Hk; [reflexivity|].
  cbn [dict_set map fst In] in *.
  destruct (pystr_eqb k' k) eqn:E.
  - apply pystr_eqb_eq in E. tauto.
  - cbn [app]. rewrite IH; [reflexivity|tauto].
Qed.

Lemma scan_members_members (d : pydict) :
  Forall (fun kv => reads_back (snd kv)) d ->
  d <> [] ->
  forall (acc : pydict) (fuel : nat) (rest : pystr),
    NoDup (map fst (acc ++ d)) ->
    (members_weight d <= fuel)%nat ->
    scan_members fuel (dumps_members d ++ 125%N :: rest) acc
    = Parsed (PDict (acc ++ d)) rest.
Proof.
  induction 1 as [|[k x] d Hx Hd IH]; intros Hne acc fuel rest Hnodup Hfuel;
    [contradiction|].
  cbn [snd] in Hx.
  cbn [members_weight fold_right] in Hfuel. fold (members_weight d) in Hfuel.
  destruct fuel as [|fuel]; [lia|].
  assert (Hfresh : ~ In k (map fst acc)).
  { rewrite map_app in Hnodup. cbn [map fst] in Hnodup.
    apply NoDup_remove_2 in Hnodup. intros Hin. apply Hnodup.
    apply in_or_app. now left. }
  destruct d as [|kv d].
  - cbn [dumps_members]. rewrite <- !app_assoc.
    destruct (scan_json_string k
                (str ": " ++ json_dumps x ++ 125%N :: rest))
      as (tail & -> & Hscan).
    cbn [scan_members]. ground_tests. rewrite Hscan.
    change (str ": ") with [58; 32]%N. cbn [app skip_whitespace].
    ground_tests. rewrite skip_whitespace_value.
    rewrite (Hx fuel (125%N :: rest)) by (reflexivity || lia).
    cbn [skip_whitespace]. ground_tests.
    now rewrite dict_set_fresh.
  - rewrite dumps_members_cons, <- !app_assoc.
    destruct (scan_json_string k
                (str ": " ++ json_dumps x ++ str ", "
                   ++ dumps_members (kv :: d) ++ 125%N :: rest))
      as (tail & -> & Hscan).
    cbn [scan_members]. ground_tests. rewrite Hscan.
    change (str ": ") with [58; 32]%N. cbn [app skip_whitespace].
    ground_tests. rewrite skip_whitespace_value.
    rewrite (Hx fuel) by (reflexivity || lia).
    change (str ", ") with [44; 32]%N. cbn [app skip_whitespace].
    ground_tests.
    assert (Hws : skip_whitespace
                    (dumps_members (kv :: d) ++ 125%N :: rest)
                  = dumps_members (kv :: d) ++ 125%N :: rest).
    { destruct kv as [k' x']. destruct d; reflexivity. }
    rewrite Hws, dict_set_fresh by assumption.
    rewrite IH; [now rewrite <- app_assoc|discriminate| |lia].
    now rewrite <- app_assoc.
Qed.

Lemma reads_back_dict (d : pydict) :
  NoDup (map fst d) ->
  Forall (fun kv => reads_back (snd kv)) d -> reads_back (PDict d).
Proof.
  intros Hnodup Hd fuel rest Hfuel Hrest.
  change (weight (PDict d)) with (S (members_weight d)) in Hfuel.
  destruct fuel as [|fuel]; [lia|].
  rewrite json_dumps_dict. cbn [app scan_once]. rewrite <- app_assoc.
  ground_tests.
  destruct d as [|[k x] d].
  - reflexivity.
  - pose proof (scan_members_members ((k, x) :: d) Hd) as Hscan.
    assert (Hhead : exists tl, dumps_members ((k, x) :: d) = 34%N :: tl)
      by (destruct d; eexists; reflexivity).
    destruct Hhead as [tl Heq]. rewrite Heq in *.
    cbn [app skip_whitespace] in *. ground_tests.
    apply (Hscan ltac:(discriminate) []); [assumption|lia].
Qed.

(** Every well-formed value is read back from its JSON text. *)
Lemma well_formed_reads_back (v : pyval) :
  well_formed v = true -> reads_back v.
Proof.
  induction v as [| b | n | s | l IH | d IH] using pyval_ind; intros Hwf;
    try (apply reads_back_scalar; exact I).
  - apply reads_back_list. cbn [well_formed] in Hwf.
    rewrite forallb_forall in Hwf. rewrite Forall_forall in *.
    intros x Hx. apply IH; [assumption|]. now apply Hwf.
  - cbn [well_formed] in Hwf. apply andb_true_iff in Hwf as [Hkeys Hwf].
    apply reads_back_dict; [now apply distinct_NoDup|].
    rewrite forallb_forall in Hwf. rewrite Forall_forall in *.
    intros [k x] Hx. apply IH; [assumption|]. apply (Hwf (k, x) Hx).
Qed.

Lemma json_dumps_length (v : pyval) : (1 <= List.length (json_dumps v))%nat.
Proof.
  destruct (json_dumps_head v) as (c & tl & -> & _). simpl. lia.
Qed.

Lemma json_string_length (s : pystr) : (2 <= List.length (json_string s))%nat.
Proof.
  unfold json_string. cbn [List.length]. rewrite length_app. simpl. lia.
Qed.

Lemma items_weight_length (l : list pyval) :
  Forall (fun x => weight x <= List.length (json_dumps x))%nat l ->
  (items_weight l <= List.length (dumps_items l) + 1)%nat.
Proof.
  induction 1 as [|x l Hx Hl IH]; [simpl; lia|].
  cbn [items_weight fold_right]. fold (items_weight l).
  destruct l as [|y l].
  - cbn [dumps_items items_weight fold_right]. lia.
  - rewrite dumps_items_cons, !length_app.
    change (List.length (str ", ")) with 2%nat. lia.
Qed.

Lemma members_weight_length (d : pydict) :
  Forall (fun kv => weight (snd kv) <= List.length (json_dumps (snd kv)))%nat
    d ->
  (members_weight d <= List.length (dumps_members d) + 1)%nat.
Proof.
  induction 1 as [|[k x] d Hx Hd IH]; [simpl; lia|].
  cbn [snd] in Hx.
  cbn [members_weight fold_right]. fold (members_weight d).
  pose proof (json_string_length k).
  destruct d as [|kv d].
  - cbn [dumps_members members_weight fold_right]. rewrite !length_app.
    lia.
  - rewrite dumps_members_cons, !length_app.
    change (List.length (str ", ")) with 2%nat. lia.
Qed.

Lemma weight_length (v : pyval) :
  (weight v <= List.length (json_dumps v))%nat.
Proof.
  induction v as [| b | n | s | l IH | d IH] using pyval_ind;
    try apply json_dumps_length.
  - change (weight (PList l)) with (S (items_weight l)).
    rewrite json_dumps_list. cbn [List.length]. rewrite length_app.
    pose proof (items_weight_length l IH). simpl. lia.
  - change (weight (PDict d)) with (S (members_weight d)).
    rewrite json_dumps_dict. cbn [List.length]. rewrite length_app.
    pose proof (members_weight_length d IH). simpl. lia.
Qed.

(** [json.loads(json.dumps(v))] is [v]. *)
Lemma json_decode_dumps (v : pyval) :
  well_formed v = true -> json_decode (json_dumps v) = Some (Ok v).
Proof.
  intros Hwf. unfold json_decode.
  pose proof (skip_whitespace_value v []) as Hws.
  rewrite app_nil_r in Hws. rewrite Hws.
  pose proof (well_formed_reads_back v Hwf
                (S (2 * List.length (json_dumps v))) []) as Hread.
  rewrite app_nil_r in Hread. rewrite Hread; [reflexivity| |reflexivity].
  pose proof (weight_length v). lia.
Qed.

Lemma utf8_encode_ascii_cons (c : N) (s : pystr) (b : bytes) :
  (c < 128)%N ->
  utf8_encode (c :: s) = Ok b ->
  exists b', b = c :: b' /\ utf8_encode s = Ok b'.
Proof.
  intros Hc. cbn [utf8_encode]. unfold utf8_encode_char.
  apply N.ltb_lt in Hc. rewrite Hc.
  destruct (utf8_encode s) as [b'|e]; [|discriminate].
  cbn [bind app]. intros [= <-]. now exists b'.
Qed.

Lemma detects_utf8_dict (d : pydict) (b : bytes) :
  utf8_encode (json_dumps (PDict d)) = Ok b -> detects_utf8 b = true.
Proof.
  rewrite json_dumps_dict. intros Hb.
  apply utf8_encode_ascii_cons in Hb as (b1 & -> & Hb); [|reflexivity].
  assert (Hhead : exists c tl, dumps_members d ++ [125%N] = c :: tl
                               /\ (c = 34 \/ c = 125)%N).
  { destruct d as [|[k x] d].
    - exists 125%N, []. split; [reflexivity|now right].
    - assert (exists tl, dumps_members ((k, x) :: d) = 34%N :: tl)
        as [tl ->] by (destruct d; eexists; reflexivity).
      exists 34%N, (tl ++ [125%N]). split; [reflexivity|now left]. }
  destruct Hhead as (c & tl & Heq & Hc). rewrite Heq in Hb.
  apply utf8_encode_ascii_cons in Hb as (b2 & -> & Hb);
    [|destruct Hc as [->| ->]; reflexivity].
  destruct Hc as [->| ->]; destruct b2 as [|? [|? ?]]; reflexivity.
Qed.

(** Whatever the encoder returns for a card, the decoder turns back into
    the card. *)
Lemma card_decode_encode (d : pydict) (b64 : pystr) :
  well_formed (PDict d) = true ->
  card_encode (PDict d) = Ok b64 ->
  card_decode (PStr b64) = Some (Ok (PDict d)).
Proof.
  intros Hwf. unfold card_encode, card_decode.
  destruct (utf8_encode (json_dumps (PDict d))) as [b|e] eqn:Hb;
    [|discriminate].
  cbn [bind]. intros [= <-].
  rewrite b64decode_encode by (now apply utf8_encode_bytes in Hb).
  unfold json_loads.
  rewrite (detects_utf8_dict d b Hb), (utf8_decode_encode _ _ Hb).
  now apply json_decode_dumps.
Qed.

(** ** When the encoder succeeds *)

Lemma ascii_encodable (c : N) : (c < 128)%N -> encodable_char c = true.
Proof.
  intros Hc. unfold encodable_char, is_surrogate. settle_tests. reflexivity.
Qed.

Lemma all_digits_encodable (s : pystr) :
  all_digits s = true -> forallb encodable_char s = true.
Proof.
  induction s as [|c s IH]; intros H; [reflexivity|].
  cbn [all_digits] in H. apply andb_true_iff in H as [Hc Hs].
  cbn [forallb]. rewrite (IH Hs), andb_true_r.
  unfold is_digit in Hc. apply andb_true_iff in Hc as [_ Hhi].
  apply N.leb_le in Hhi. apply ascii_encodable. lia.
Qed.

Lemma int_repr_encodable (z : Z) :
  forallb encodable_char (int_repr z) = true.
Proof.
  assert (Hd : forall p,
             forallb encodable_char
               (digits_of (N.to_nat (N.size (N.pos p))) (N.pos p)) = true).
  { intros p. apply all_digits_encodable.
    apply digits_of_spec. rewrite N2Nat.id. apply N.size_gt. }
  destruct z as [|p|p]; [reflexivity|apply Hd|].
  cbn [int_repr forallb]. now rewrite Hd.
Qed.

Lemma escape_char_encodable (c : N) :
  encodable_char c = true -> forallb encodable_char (escape_char c) = true.
Proof.
  intros Hc. unfold escape_char.
  repeat match goal with
         | |- context [if (c =? ?k)%N then _ else _] =>
             destruct (N.eqb_spec c k); [reflexivity|]
         end.
  destruct (N.ltb_spec c 32).
  - assert (Hh : forall v, (v < 16)%N -> (hex_digit v < 128)%N)
      by (intros v Hv; unfold hex_digit; destruct (v <? 10)%N; lia).
    cbn [forallb].
    rewrite !ascii_encodable; try reflexivity; try lia; apply Hh; lia.
  - cbn [forallb]. now rewrite Hc.
Qed.

Lemma json_string_encodable (s : pystr) :
  forallb encodable_char s = true ->
  forallb encodable_char (json_string s) = true.
Proof.
  intros Hs. unfold json_string. cbn [forallb].
  rewrite forallb_app. cbn [forallb andb].
  rewrite andb_true_r. change (encodable_char 34) with true. cbn [andb].
  induction s as [|c s IH]; [reflexivity|].
  cbn [forallb] in Hs. apply andb_true_iff in Hs as [Hc Hs].
  cbn [flat_map]. rewrite forallb_app, (escape_char_encodable c Hc).
  now apply IH.
Qed.

Lemma json_dumps_encodable (v : pyval) :
  encodable v = true -> forallb encodable_char (json_dumps v) = true.
Proof.
  induction v as [| [|] | n | s | l IH | d IH] using pyval_ind; intros Hv;
    try reflexivity.
  - apply int_repr_encodable.
  - now apply json_string_encodable.
  - rewrite json_dumps_list. cbn [forallb]. rewrite forallb_app.
    change (encodable_char 91) with true. cbn [forallb andb].
    change (encodable_char 93) with true. rewrite andb_true_r.
    cbn [encodable] in Hv. rewrite forallb_forall in Hv.
    induction IH as [|x l Hx Hl IHl]; [reflexivity|].
    assert (Hx' : forallb encodable_char (json_dumps x) = true)
      by (apply Hx, Hv; now left).
    assert (Hl' : forallb encodable_char (dumps_items l) = true)
      by (apply IHl; intros y Hy; apply Hv; now right).
    destruct l as [|y l]; [exact Hx'|].
    rewrite dumps_items_cons, !forallb_app, Hx', Hl'. reflexivity.
  - rewrite json_dumps_dict. cbn [forallb]. rewrite forallb_app.
    change (encodable_char 123) with true. cbn [forallb andb].
    change (encodable_char 125) with true. rewrite andb_true_r.
    cbn [encodable] in Hv. rewrite forallb_forall in Hv.
    induction IH as [|[k x] d Hx Hd IHd]; [reflexivity|].
    cbn [snd] in Hx.
    pose proof (Hv (k, x) (or_introl eq_refl)) as Hkx.
    apply andb_true_iff in Hkx as [Hk Hxe].
    assert (Hk' : forallb encodable_char (json_string k) = true)
      by now apply json_string_encodable.
    assert (Hx' : forallb encodable_char (json_dumps x) = true)
      by now apply Hx.
    assert (Hd' : forallb encodable_char (dumps_members d) = true)
      by (apply IHd; intros y Hy; apply Hv; now right).
    destruct d as [|kv d].
    + cbn [dumps_members]. rewrite !forallb_app, Hk', Hx'. reflexivity.
    + rewrite dumps_members_cons, !forallb_app, Hk', Hx', Hd'.
      reflexivity.
Qed.

(** A card without a surrogate is encoded. *)
Lemma card_encode_encodable (card : pyval) :
  encodable card = true -> exists b64, card_encode card = Ok b64.
Proof.
  intros Hc. unfold card_encode.
  destruct (utf8_encode_encodable (json_dumps card)) as [b Hb];
    [now apply json_dumps_encodable|].
  rewrite Hb. now eexists.
Qed.

(** ** The fuel of the JSON decoder

    Every scan consumes its text, so the fuel [json_decode] gives is
    enough: the fuel never runs out. *)

Lemma skip_whitespace_length (s : pystr) :
  (List.length (skip_whitespace s) <= List.length s)%nat.
Proof.
  induction s as [|c s IH]; [simpl; lia|].
  cbn [skip_whitespace]. destruct (is_whitespace c); simpl; lia.
Qed.

Lemma skip_whitespace_cons_length (s : pystr) (c : N) (r : pystr) :
  skip_whitespace s = c :: r -> (List.length r < List.length s)%nat.
Proof.
  intros H. pose proof (skip_whitespace_length s) as Hle.
  rewrite H in Hle. simpl in Hle. lia.
Qed.

Lemma parsed_map_Parsed (A B : Type) (f : A -> B) (p : parsed A) (b : B)
    (rest : pystr) :
  parsed_map f p = Parsed b rest -> exists a, p = Parsed a rest /\ b = f a.
Proof.
  destruct p as [a r| |]; cbn [parsed_map]; intros H; try discriminate.
  injection H as <- <-. now exists a.
Qed.

Lemma scan_string_length_bounded (n : nat) :
  forall s key rest : pystr,
    (List.length s <= n)%nat ->
    scan_string s = Parsed key rest ->
    (List.length rest < List.length s)%nat.
Proof.
  induction n as [|n IH]; intros s key rest Hn H.
  { destruct s; [discriminate|simpl in Hn; lia]. }
  assert (Hrec : forall (x : pystr) (f : pystr -> pystr),
             (List.length x <= n)%nat ->
             parsed_map f (scan_string x) = Parsed key rest ->
             (List.length rest < List.length x)%nat).
  { intros x f Hx Hp. apply parsed_map_Parsed in Hp as (k & Hk & _).
    now apply (IH x k rest). }
  destruct s as [|c r]; [discriminate|].
  cbn [scan_string] in H. simpl in Hn.
  destruct (c =? 34)%N; [injection H as _ <-; simpl; lia|].
  destruct (c =? 92)%N.
  - destruct r as [|e r1]; [discriminate|]. simpl in Hn.
    destruct (e =? 117)%N.
    + destruct r1 as [|h1 [|h2 [|h3 [|h4 r2]]]]; try discriminate.
      simpl in Hn.
      destruct (hex4 h1 h2 h3 h4) as [u1|]; [|discriminate].
      assert (Hkeep : parsed_map (cons u1) (scan_string r2)
                      = Parsed key rest ->
                      (List.length rest
                       < List.length (c :: e :: h1 :: h2 :: h3 :: h4 :: r2))%nat).
      { intros Hp. apply Hrec in Hp; [simpl; lia|lia]. }
      destruct (is_high_surrogate u1); [|now apply Hkeep].
      destruct r2 as [|b [|u [|k1 [|k2 [|k3 [|k4 r3]]]]]];
        try (now apply Hkeep).
      destruct ((b =? 92)%N && (u =? 117)%N); [|now apply Hkeep].
      destruct (hex4 k1 k2 k3 k4) as [u2|]; [|discriminate].
      destruct (is_low_surrogate u2); [|now apply Hkeep].
      apply Hrec in H; simpl in *; lia.
    + destruct (simple_escape e); [|discriminate].
      apply Hrec in H; simpl; lia.
  - destruct (c <? 32)%N; [discriminate|].
    apply Hrec in H; simpl; lia.
Qed.

Lemma scan_string_length (s key rest : pystr) :
  scan_string s = Parsed key rest -> (List.length rest < List.length s)%nat.
Proof. apply (scan_string_length_bounded (List.length s)). lia. Qed.

Lemma span_digits_length (s ds rest : pystr) :
  span_digits s = (ds, rest) -> (List.length rest <= List.length s)%nat.
Proof.
  revert ds rest; induction s as [|c s IH]; intros ds rest H;
    cbn [span_digits] in H.
  - injection H as _ <-. simpl. lia.
  - destruct (is_digit c).
    + destruct (span_digits s) as [ds' rest'] eqn:E.
      injection H as _ <-. specialize (IH ds' rest' eq_refl). simpl. lia.
    + injection H as _ <-. lia.
Qed.

Lemma scan_number_length (s : pystr) (v : pyval) (rest : pystr) :
  scan_number s = Parsed v rest -> (List.length rest < List.length s)%nat.
Proof.
  assert (Hnat : forall x n r, scan_natural x = Parsed n r ->
                               (List.length r < List.length x)%nat).
  { intros x n r H. destruct x as [|c x']; [discriminate|].
    cbn [scan_natural] in H.
    destruct (c =? 48)%N; [injection H as _ <-; simpl; lia|].
    destruct (is_digit c); [|discriminate].
    destruct (span_digits x') as [ds rest'] eqn:E.
    injection H as _ <-. apply span_digits_length in E. simpl. lia. }
  unfold scan_number. intros H.
  destruct s as [|c s'].
  - destruct (scan_natural []) as [n r| |] eqn:E; discriminate.
  - destruct (c =? 45)%N.
    + destruct (scan_natural s') as [n r| |] eqn:E; try discriminate.
      apply Hnat in E. destruct (float_follows r); [discriminate|].
      injection H as _ <-. simpl. lia.
    + destruct (scan_natural (c :: s')) as [n r| |] eqn:E;
        try discriminate.
      apply Hnat in E. destruct (float_follows r); [discriminate|].
      now injection H as _ <-.
Qed.

Lemma scan_number_error (s : pystr) (e : exn) :
  scan_number s = Failed e -> e = JSONDecodeError.
Proof.
  assert (Hnat : forall x, scan_natural x = Failed e ->
                           e = JSONDecodeError).
  { intros x H. destruct x as [|c x']; [now injection H as <-|].
    cbn [scan_natural] in H.
    destruct (c =? 48)%N; [discriminate|].
    destruct (is_digit c); [|now injection H as <-].
    destruct (span_digits x'). discriminate. }
  unfold scan_number. intros H.
  destruct s as [|c s'].
  - cbn in H. now injection H as <-.
  - destruct (c =? 45)%N.
    + destruct (scan_natural s') as [n r|e'|] eqn:E.
      * destruct (float_follows r); discriminate.
      * injection H as <-. now apply Hnat in E.
      * discriminate.
    + destruct (scan_natural (c :: s')) as [n r|e'|] eqn:E.
      * destruct (float_follows r); discriminate.
      * injection H as <-. now apply Hnat in E.
      * discriminate.
Qed.

Lemma starts_with_length (p s : pystr) :
  starts_with p s = true -> (List.length p <= List.length s)%nat.
Proof.
  revert s; induction p as [|x p IH]; intros s H; [simpl; lia|].
  destruct s as [|y s]; [discriminate|].
  cbn [starts_with] in H. apply andb_true_iff in H as [_ H].
  apply IH in H. simpl. lia.
Qed.

(** A scan that succeeds leaves less text than it was given. *)
Lemma scan_consumes (fuel : nat) :
  (forall s v rest,
      scan_once fuel s = Parsed v rest ->
      (List.length rest < List.length s)%nat)
  /\ (forall s acc v rest,
         scan_elements fuel s acc = Parsed v rest ->
         (List.length rest < List.length s)%nat)
  /\ (forall s acc v rest,
         scan_members fuel s acc = Parsed v rest ->
         (List.length rest < List.length s)%nat).
Proof.
  induction fuel as [|fuel (IHonce & IHelems & IHmembers)];
    [repeat split; intros; discriminate|].
  split; [|split].
  - intros s v rest H. destruct s as [|c r]; [discriminate|].
    cbn [scan_once] in H.
    destruct (c =? 34)%N.
    { apply parsed_map_Parsed in H as (k & Hk & _).
      apply scan_string_length in Hk. simpl. lia. }
    destruct (c =? 123)%N.
    { destruct (skip_whitespace r) as [|c' r'] eqn:Hws; [discriminate|].
      apply skip_whitespace_cons_length in Hws.
      destruct (c' =? 125)%N; [injection H as _ <-; simpl; lia|].
      apply IHmembers in H. simpl in *. lia. }
    destruct (c =? 91)%N.
    { destruct (skip_whitespace r) as [|c' r'] eqn:Hws; [discriminate|].
      apply skip_whitespace_cons_length in Hws.
      destruct (c' =? 93)%N; [injection H as _ <-; simpl; lia|].
      apply IHelems in H. simpl in *. lia. }
    destruct (starts_with (str "null") (c :: r)) eqn:Hnull.
    { apply starts_with_length in Hnull. injection H as _ <-.
      pose proof (length_skipn 4 (c :: r)) as Hskip. simpl in *. lia. }
    destruct (starts_with (str "true") (c :: r)) eqn:Htrue.
    { apply starts_with_length in Htrue. injection H as _ <-.
      pose proof (length_skipn 4 (c :: r)) as Hskip. simpl in *. lia. }
    destruct (starts_with (str "false") (c :: r)) eqn:Hfalse.
    { apply starts_with_length in Hfalse. injection H as _ <-.
      pose proof (length_skipn 5 (c :: r)) as Hskip. simpl in *. lia. }
    destruct (starts_with (str "NaN") (c :: r)
              || starts_with (str "Infinity") (c :: r)
              || starts_with (str "-Infinity") (c :: r)); [discriminate|].
    now apply scan_number_length in H.
  - intros s acc v rest H. cbn [scan_elements] in H.
    destruct (scan_once fuel s) as [x r| |] eqn:Hx; try discriminate.
    apply IHonce in Hx.
    destruct (skip_whitespace r) as [|c r'] eqn:Hws; [discriminate|].
    apply skip_whitespace_cons_length in Hws.
    destruct (c =? 93)%N; [injection H as _ <-; lia|].
    destruct (c =? 44)%N; [|discriminate].
    apply IHelems in H. pose proof (skip_whitespace_length r'). lia.
  - intros s acc v rest H. cbn [scan_members] in H.
    destruct s as [|q r0]; [discriminate|].
    destruct (negb (q =? 34)%N); [discriminate|].
    destruct (scan_string r0) as [key r1| |] eqn:Hkey; try discriminate.
    apply scan_string_length in Hkey.
    destruct (skip_whitespace r1) as [|colon r2] eqn:Hws1; [discriminate|].
    apply skip_whitespace_cons_length in Hws1.
    destruct (negb (colon =? 58)%N); [discriminate|].
    destruct (scan_once fuel (skip_whitespace r2)) as [x r| |] eqn:Hx;
      try discriminate.
    apply IHonce in Hx. pose proof (skip_whitespace_length r2).
    destruct (skip_whitespace r) as [|c r'] eqn:Hws; [discriminate|].
    apply skip_whitespace_cons_length in Hws.
    destruct (c =? 125)%N; [injection H as _ <-; simpl; lia|].
    destruct (c =? 44)%N; [|discriminate].
    apply IHmembers in H. pose proof (skip_whitespace_length r').
    simpl. lia.
Qed.

Lemma scan_fuel (fuel : nat) :
  (forall s, (2 * List.length s + 1 <= fuel)%nat ->
             scan_once fuel s <> Failed RecursionError)
  /\ (forall s acc, (2 * List.length s + 2 <= fuel)%nat ->
                    scan_elements fuel s acc <> Failed RecursionError)
  /\ (forall s acc, (2 * List.length s + 2 <= fuel)%nat ->
                    scan_members fuel s acc <> Failed RecursionError).
Proof.
  induction fuel as [|fuel (IHonce & IHelems & IHmembers)];
    [repeat split; intros; lia|].
  destruct (scan_consumes fuel) as (Conce & _ & _).
  assert (Hmap : forall (B : Type) (f : pystr -> B) (x : pystr),
             parsed_map f (scan_string x) <> Failed RecursionError).
  { intros B f x.
    assert (Hs : forall n y, (List.length y <= n)%nat ->
                             scan_string y <> Failed RecursionError).
    { induction n as [|n IH]; intros y Hn.
      { destruct y; [discriminate|simpl in Hn; lia]. }
      assert (Hrec : forall (z : pystr) (g : pystr -> pystr),
                 (List.length z <= n)%nat ->
                 parsed_map g (scan_string z) <> Failed RecursionError).
      { intros z g Hz Hp. apply (IH z Hz).
        destruct (scan_string z); cbn [parsed_map] in Hp; congruence. }
      destruct y as [|c r]; [discriminate|]. cbn [scan_string].
      simpl in Hn.
      repeat match goal with
             | |- parsed_map _ (scan_string _) <> _ =>
                 apply Hrec; simpl in *; lia
             | |- Parsed _ _ <> _ => discriminate
             | |- Failed JSONDecodeError <> _ => discriminate
             | |- (if ?b then _ else _) <> _ => destruct b
             | |- match ?l with _ => _ end <> _ =>
                 destruct l; simpl in Hn
             end. }
    specialize (Hs (List.length x) x (le_n _)).
    destruct (scan_string x); cbn [parsed_map]; congruence. }
  split; [|split].
  - intros s Hs. destruct s as [|c r]; [discriminate|].
    cbn [scan_once]. simpl in Hs.
    destruct (c =? 34)%N; [apply Hmap|].
    destruct (c =? 123)%N.
    { destruct (skip_whitespace r) as [|c' r'] eqn:Hws; [discriminate|].
      apply skip_whitespace_cons_length in Hws.
      destruct (c' =? 125)%N; [discriminate|].
      apply IHmembers. simpl. lia. }
    destruct (c =? 91)%N.
    { destruct (skip_whitespace r) as [|c' r'] eqn:Hws; [discriminate|].
      apply skip_whitespace_cons_length in Hws.
      destruct (c' =? 93)%N; [discriminate|].
      apply IHelems. simpl. lia. }
    repeat match goal with
           | |- (if ?b then _ else _) <> _ => destruct b; try discriminate
           end.
    intros Hn. now apply scan_number_error in Hn.
  - intros s acc Hs. cbn [scan_elements].
    destruct (scan_once fuel s) as [x r| |] eqn:Hx;
      [|intros [= ->]; apply (IHonce s); [lia|exact Hx]|discriminate].
    apply Conce in Hx.
    destruct (skip_whitespace r) as [|c r'] eqn:Hws; [discriminate|].
    apply skip_whitespace_cons_length in Hws.
    destruct (c =? 93)%N; [discriminate|].
    destruct (c =? 44)%N; [|discriminate].
    apply IHelems. pose proof (skip_whitespace_length r'). lia.
  - intros s acc Hs. cbn [scan_members].
    destruct s as [|q r0]; [discriminate|]. simpl in Hs.
    destruct (negb (q =? 34)%N); [discriminate|].
    destruct (scan_string r0) as [key r1| |] eqn:Hkey;
      [|intros [= ->]; apply (Hmap pystr (fun x => x) r0);
        now rewrite Hkey|discriminate].
    apply scan_string_length in Hkey.
    destruct (skip_whitespace r1) as [|colon r2] eqn:Hws1; [discriminate|].
    apply skip_whitespace_cons_length in Hws1.
    destruct (negb (colon =? 58)%N); [discriminate|].
    pose proof (skip_whitespace_length r2).
    destruct (scan_once fuel (skip_whitespace r2)) as [x r| |] eqn:Hx;
      [|intros [= ->]; apply (IHonce (skip_whitespace r2)); [lia|exact Hx]
       |discriminate].
    apply Conce in Hx.
    destruct (skip_whitespace r) as [|c r'] eqn:Hws; [discriminate|].
    apply skip_whitespace_cons_length in Hws.
    destruct (c =? 125)%N; [discriminate|].
    destruct (c =? 44)%N; [|discriminate].
    apply IHmembers. pose proof (skip_whitespace_length r'). lia.
Qed.

(** [json.loads] on a [str] never exhausts the fuel: it returns a value,
    raises [JSONDecodeError], or meets a float. *)
Lemma json_decode_fuel (s : pystr) :
  json_decode s <> Some (Raise RecursionError).
Proof.
  unfold json_decode.
  destruct (scan_fuel (S (2 * List.length s))) as (Honce & _ & _).
  specialize (Honce (skip_whitespace s)).
  pose proof (skip_whitespace_length s).
  destruct (scan_once (S (2 * List.length s)) (skip_whitespace s))
    as [v rest|e|] eqn:E.
  - destruct (skip_whitespace rest); discriminate.
  - intros [= ->]. apply Honce; [lia|reflexivity].
  - discriminate.
Qed.

(** * The claims on the codec and the entry points *)




Section Import_properties.

Context {Image File : Type}.
Variable Image_open : stream File -> result Image.
Variable Image_info : Image -> pydict.
Variable loads : bytes -> result pyval.
Variable exn_text : exn -> pystr.

Local Abbreviation import :=
  (import_character_card Image_open Image_info loads exn_text).


(** C8 (amended).  In a failure result the image is set when the bytes
    open as an image that has no [chara] entry, and null in every
    result of the exception handler: when the bytes do not open as an
    image, and also when they do and the [chara] entry cannot be decoded
    or mapped. *)
Theorem import_character_card_failure_image
    (image_data : image_source File) (user_name : pyval) :
  (forall img,
      match image_data with
      | Source_bytes b => Image_open (BytesIO b)
      | Source_file f => Image_open (File_object f)
      end = Ok img ->
      dict_has (Image_info img) (str "chara") = false ->
      import image_data user_name
      = Ok {| success := false;
              error := Some (str "No character card metadata found in image. Make sure this is a valid Tavern/SillyTavern character card.");
              image := Some img;
              character_data := None |})
  /\ (forall e,
         match image_data with
         | Source_bytes b => Image_open (BytesIO b)
         | Source_file f => Image_open (File_object f)
         end = Raise e ->
         import image_data user_name
         = Ok {| success := false;
                 error := Some (str "Error importing character card: "
                                ++ exn_str exn_text e);
                 image := None;
                 character_data := None |})
  /\ (forall img chara e,
         match image_data with
         | Source_bytes b => Image_open (BytesIO b)
         | Source_file f => Image_open (File_object f)
         end = Ok img ->
         dict_get (Image_info img) (str "chara") = Some chara ->
         (json <- b64decode chara ;;
          card <- loads json ;;
          map_tavern_to_internal card user_name) = Raise e ->
         import image_data user_name
         = Ok {| success := false;
                 error := Some (str "Error importing character card: "
                                ++ exn_str exn_text e);
                 image := None;
                 character_data := None |}).
Proof.
  unfold import, import_character_card. repeat split.
  - intros img -> Hno. cbn [bind]. now rewrite Hno.
  - now intros e ->.
  - intros img chara e -> Hc Hfail. cbn [bind]. unfold dict_has.
    cbn [py_getitem]. rewrite Hc. cbn [negb bind].
    destruct (b64decode chara) as [json|e1]; cbn [bind] in *;
      [|now injection Hfail as ->].
    destruct (loads json) as [card|e2]; cbn [bind] in *;
      [|now injection Hfail as ->].
    now rewrite Hfail.
Qed.

(** The import path decodes what the codec encodes: with a [json.loads]
    that agrees with the decoder of the codec where that one is defined,
    an image whose [chara] entry is the encoding of a card is imported as
    the mapping of that card. *)
Lemma import_character_card_decodes
    (image_data : image_source File) (user_name : pyval)
    (img : Image) (d : pydict) (b64 : pystr) :
  (forall b r, json_loads b = Some r -> loads b = r) ->
  match image_data with
  | Source_bytes b => Image_open (BytesIO b)
  | Source_file f => Image_open (File_object f)
  end = Ok img ->
  dict_get (Image_info img) (str "chara") = Some (PStr b64) ->
  well_formed (PDict d) = true ->
  card_encode (PDict d) = Ok b64 ->
  import image_data user_name
  = match map_tavern_to_internal (PDict d) user_name with
    | Ok data =>
        Ok {| success := true;
              error := None;
              image := Some img;
              character_data := Some data |}
    | Raise e =>
        Ok {| success := false;
              error := Some (str "Error importing character card: "
                             ++ exn_str exn_text e);
              image := None;
              character_data := None |}
    end.
Proof.
  intros Hloads Hopen Hchara Hwf Henc.
  pose proof (card_decode_encode d b64 Hwf Henc) as Hdec.
  unfold card_decode in Hdec.
  unfold import_character_card. rewrite Hopen. cbn [bind].
  unfold dict_has. cbn [py_getitem]. rewrite Hchara. cbn [negb bind].
  destruct (b64decode (PStr b64)) as [json|e]; [|discriminate].
  cbn [bind]. rewrite (Hloads json _ Hdec). cbn [bind].
  destruct (map_tavern_to_internal (PDict d) user_name); reflexivity.
Qed.

End Import_properties.


(** C8, as stated, fails: the image of a failure result does not follow
    whether the input opened as an image.  Here it opens, its [chara]
    entry ["A"] is not base64, and the result holds no image. *)
Lemma undecodable_card_drops_the_image :
  stub_open (File_object [ (str "chara", PStr (str "A")) ])
  = Ok [ (str "chara", PStr (str "A")) ]
  /\ b64decode (PStr (str "A")) = Raise BinasciiError
  /\ stub_import (Source_file [ (str "chara", PStr (str "A")) ])
       (PStr (str "YOU"))
     = Ok {| success := false;
             error := Some (str "Error importing character card: error");
             image := None;
             character_data := None |}.
Proof. repeat split. Qed.

Lemma import_character_card_failure_image_cases :
  stub_import (Source_file [ (str "comment", PStr (str "no card")) ])
    (PStr (str "YOU"))
  = Ok {| success := false;
          error := Some (str "No character card metadata found in image. Make sure this is a valid Tavern/SillyTavern character card.");
          image := Some [ (str "comment", PStr (str "no card")) ];
          character_data := None |}
  /\ stub_import (Source_bytes [110; 111; 116; 32; 97; 32; 80; 78; 71]%N)
       (PStr (str "YOU"))
     = Ok {| success := false;
             error := Some (str "Error importing character card: cannot identify image file");
             image := None;
             character_data := None |}
  /\ stub_import (Source_file [ (str "chara", PStr (str "A")) ])
       (PStr (str "YOU"))
     = Ok {| success := false;
             error := Some (str "Error importing character card: error");
             image := None;
             character_data := None |}.
Proof.
  split; [|split].
  - apply (proj1 (import_character_card_failure_image stub_open stub_info
                    stub_loads stub_text
                    (Source_file [ (str "comment", PStr (str "no card")) ])
                    (PStr (str "YOU")))
             [ (str "comment", PStr (str "no card")) ]); reflexivity.
  - apply (proj1 (proj2 (import_character_card_failure_image stub_open
                           stub_info stub_loads stub_text
                           (Source_bytes
                              [110; 111; 116; 32; 97; 32; 80; 78; 71]%N)
                           (PStr (str "YOU"))))
             (LibraryError (str "cannot identify image file")));
      reflexivity.
  - apply (proj2 (proj2 (import_character_card_failure_image stub_open
                           stub_info stub_loads stub_text
                           (Source_file [ (str "chara", PStr (str "A")) ])
                           (PStr (str "YOU"))))
             [ (str "chara", PStr (str "A")) ] (PStr (str "A"))
             BinasciiError); reflexivity.
Defined.

(** ** Export *)

Lemma field_well_formed (d : pydict) (k : pystr) (default : pyval) :
  well_formed (PDict d) = true -> well_formed default = true ->
  well_formed (field d k default) = true.
Proof.
  intros Hd Hdef. unfold field.
  destruct (dict_get d k) as [v|] eqn:Hk; [|exact Hdef].
  cbn [well_formed] in Hd. apply andb_true_iff in Hd as [_ Hd].
  induction d as [|[k' v'] d IH]; [discriminate|].
  cbn [forallb] in Hd. apply andb_true_iff in Hd as [Hv' Hd].
  cbn [dict_get] in Hk. destruct (pystr_eqb k' k).
  - now injection Hk as <-.
  - now apply IH.
Qed.

Lemma field_encodable (d : pydict) (k : pystr) (default : pyval) :
  encodable (PDict d) = true -> encodable default = true ->
  encodable (field d k default) = true.
Proof.
  intros Hd Hdef. unfold field.
  destruct (dict_get d k) as [v|] eqn:Hk; [|exact Hdef].
  cbn [encodable] in Hd.
  induction d as [|[k' v'] d IH]; [discriminate|].
  cbn [forallb] in Hd. apply andb_true_iff in Hd as [Hv' Hd].
  apply andb_true_iff in Hv' as [_ Hv'].
  cbn [dict_get] in Hk. destruct (pystr_eqb k' k).
  - now injection Hk as <-.
  - now apply IH.
Qed.

(** The card of a record is a value the codec takes, when the record
    is. *)
Lemma map_internal_to_tavern_codec (d : pydict) :
  well_formed (PDict d) = true ->
  exists card,
    map_internal_to_tavern (PDict d) = Ok (PDict card)
    /\ well_formed (PDict card) = true
    /\ dict_get card (str "spec") = Some (PStr (str "chara_card_v2"))
    /\ (encodable (PDict d) = true -> encodable (PDict card) = true).
Proof.
  intros Hwf. unfold map_internal_to_tavern.
  rewrite !py_get_dict. cbn [bind].
  eexists. split; [reflexivity|].
  split; [|split; [reflexivity|]].
  - cbn [well_formed map fst forallb].
    rewrite !field_well_formed by (assumption || reflexivity). reflexivity.
  - intros Henc. cbn [encodable forallb].
    rewrite !field_encodable by (assumption || reflexivity). reflexivity.
Qed.

Section Export_properties.

Context {Image : Type}.
Variable Image_new : pystr -> N * N -> pystr -> Image.
Variable Image_save :
  Image -> pystr -> list (pystr * pystr) -> result bytes.
Variable exn_text : exn -> pystr.

Local Abbreviation export :=
  (export_character_card Image_new Image_save exn_text).


End Export_properties.



(** A record without any key is exported, with the defaults. *)
Example export_character_card_empty_record :
  exists png,
    export_character_card stub_new stub_save stub_text (PDict []) None
    = Ok png.
Proof. eexists. reflexivity. Qed.

(** * Further properties of the entry points *)

Section Entry_point_properties.

Context {Image File : Type}.
Variable Image_open : stream File -> result Image.
Variable Image_info : Image -> pydict.
Variable loads : bytes -> result pyval.
Variable is_path : File -> bool.
Variable exn_text : exn -> pystr.

Local Abbreviation import :=
  (import_character_card Image_open Image_info loads exn_text).

Local Abbreviation opened image_data :=
  (match image_data with
   | Source_bytes b => Image_open (BytesIO b)
   | Source_file f => Image_open (File_object f)
   end).

Local Abbreviation handled e :=
  {| success := false;
     error := Some (str "Error importing character card: "
                    ++ exn_str exn_text e);
     image := @None Image;
     character_data := None |}.

(** The three shapes of a result of the import. *)
Lemma import_character_card_cases
    (image_data : image_source File) (user_name : pyval) :
  (exists e, opened image_data = Raise e
             /\ import image_data user_name = Ok (handled e))
  \/ (exists img,
         opened image_data = Ok img
         /\ dict_get (Image_info img) (str "chara") = None
         /\ import image_data user_name
            = Ok {| success := false;
                    error := Some not_found_message;
                    image := Some img;
                    character_data := None |})
  \/ (exists img chara,
         opened image_data = Ok img
         /\ dict_get (Image_info img) (str "chara") = Some chara
         /\ ((exists e, import image_data user_name = Ok (handled e))
             \/ (exists data,
                    import image_data user_name
                    = Ok {| success := true;
                            error := None;
                            image := Some img;
                            character_data := Some data |}))).
Proof.
  unfold import_character_card.
  destruct (opened image_data) as [img|e] eqn:Hopen; cbn [bind try_except].
  2:{ left. now exists e. }
  right. unfold dict_has.
  destruct (dict_get (Image_info img) (str "chara")) as [chara|] eqn:Hc;
    cbn [negb py_getitem bind try_except].
  2:{ left. now exists img. }
  right. exists img, chara.
  split; [reflexivity|split; [exact Hc|]]. rewrite Hc. cbn [bind].
  destruct (b64decode chara) as [json|e]; cbn [bind try_except];
    [|left; now exists e].
  destruct (loads json) as [card|e]; cbn [bind try_except];
    [|left; now exists e].
  destruct (map_tavern_to_internal card user_name) as [data|e];
    cbn [bind try_except]; [right; now exists data|left; now exists e].
Qed.

(** X1.  The not-found failure can be told from every other failure: the
    error is the not-found message exactly when the input opened as an
    image without a [chara] entry, and, in a failure result, exactly when
    the image is set. *)
Theorem import_character_card_not_found
    (image_data : image_source File) (user_name : pyval) :
  exists r : import_result Image,
    import image_data user_name = Ok r
    /\ (error r = Some not_found_message
        <-> exists img,
              opened image_data = Ok img
              /\ dict_has (Image_info img) (str "chara") = false)
    /\ (success r = false ->
        (image r <> None <-> error r = Some not_found_message)).
Proof.
  assert (Hmsg : forall e,
             Some (str "Error importing character card: "
                   ++ exn_str exn_text e) <> Some not_found_message)
    by (intros e; discriminate).
  unfold dict_has.
  destruct (import_character_card_cases image_data user_name)
    as [(e & Ho & ->)|[(img & Ho & Hc & ->)
                      |(img & chara & Ho & Hc & [(e & ->)|(data & ->)])]];
    eexists; (split; [reflexivity|]); cbn [error success image];
    rewrite Ho.
  - split; [split|].
    + intros H. now apply Hmsg in H.
    + intros (img & H & _). discriminate.
    + intros _. split; [congruence|]. intros H. now apply Hmsg in H.
  - split; [split|].
    + intros _. exists img. now rewrite Hc.
    + reflexivity.
    + intros _. split; [reflexivity|discriminate].
  - split; [split|].
    + intros H. now apply Hmsg in H.
    + intros (img' & [= <-] & H). now rewrite Hc in H.
    + intros _. split; [congruence|]. intros H. now apply Hmsg in H.
  - split; [split|].
    + discriminate.
    + intros (img' & [= <-] & H). now rewrite Hc in H.
    + discriminate.
Qed.


End Entry_point_properties.

(** * Further properties of the two mappings *)

Lemma replace_placeholders_returns (text c u v : pyval) :
  replace_placeholders text c u = Ok v ->
  (truthy text = false /\ v = text)
  \/ (exists s c' u' s',
         text = PStr s /\ c = PStr c' /\ u = PStr u' /\ v = PStr s').
Proof.
  unfold replace_placeholders.
  destruct (truthy text); cbn [negb]; [|intros [= <-]; now left].
  unfold re_sub. intros H. right.
  destruct c as [| | |c'| |]; try discriminate.
  destruct (compile_template c') as [t|]; [|discriminate].
  cbn [bind] in H.
  destruct text as [| | |s| |]; try discriminate.
  cbn [bind] in H.
  destruct u as [| | |u'| |]; try discriminate.
  destruct (compile_template u') as [t'|]; [|discriminate].
  cbn [bind] in H. injection H as <-.
  now repeat eexists.
Qed.

Ltac bind_inv H x E :=
  match type of H with
  | bind ?r _ = Ok _ =>
      destruct r as [x|] eqn:E; cbn [bind] in H; [|discriminate H]
  end.


Lemma internal_typed_field (d : pydict) (k : pystr) :
  internal_typed d = true -> In k internal_fields -> is_text_field d k = true.
Proof.
  unfold internal_typed. rewrite forallb_forall. auto.
Qed.



(** A value that is not a mapping is never mapped: the call raises. *)
Lemma map_tavern_to_internal_not_a_mapping (card user_name : pyval) :
  is_mapping card = false ->
  map_tavern_to_internal card user_name
  = Raise (not_a_mapping_error card).
Proof.
  unfold map_tavern_to_internal.
  destruct card as [| | |s|l|d]; try discriminate; intros _;
    try reflexivity; cbn [py_contains bind not_a_mapping_error].
  - now destruct (is_substring (str "data") s).
  - now destruct (existsb (is_str (str "data")) l).
Qed.

Section Pipeline.

Context {Image File : Type}.
Variable Image_open : stream File -> result Image.
Variable Image_info : Image -> pydict.
Variable Image_new : pystr -> N * N -> pystr -> Image.
Variable Image_save : Image -> pystr -> list (pystr * pystr) -> result bytes.
Variable loads : bytes -> result pyval.
Variable exn_text : exn -> pystr.

Local Abbreviation import :=
  (import_character_card Image_open Image_info loads exn_text).

Local Abbreviation export :=
  (export_character_card Image_new Image_save exn_text).

Local Abbreviation opened image_data :=
  (match image_data with
   | Source_bytes b => Image_open (BytesIO b)
   | Source_file f => Image_open (File_object f)
   end).

Local Abbreviation handled e :=
  {| success := false;
     error := Some (str "Error importing character card: "
                    ++ exn_str exn_text e);
     image := @None Image;
     character_data := None |}.

(** X6.  A [chara] entry that decodes to JSON which is not an object (a list,
    a string, a number, [null]) is reported as a failure of the import:
    the mapping raises on it, and the result holds no image. *)
Theorem import_character_card_not_an_object
    (image_data : image_source File) (user_name : pyval)
    (img : Image) (chara : pyval) (json : bytes) (card : pyval) :
  opened image_data = Ok img ->
  dict_get (Image_info img) (str "chara") = Some chara ->
  b64decode chara = Ok json ->
  loads json = Ok card ->
  is_mapping card = false ->
  import image_data user_name = Ok (handled (not_a_mapping_error card)).
Proof.
  intros Hopen Hchara Hjson Hcard Hmap.
  unfold import_character_card. rewrite Hopen. cbn [bind].
  unfold dict_has. cbn [py_getitem]. rewrite Hchara. cbn [negb bind].
  rewrite Hjson. cbn [bind]. rewrite Hcard. cbn [bind].
  now rewrite map_tavern_to_internal_not_a_mapping.
Qed.


End Pipeline.

(** * Further properties of the export *)

Lemma utf8_encode_not_encodable (s : pystr) :
  forallb encodable_char s = false -> utf8_encode s = Raise UnicodeEncodeError.
Proof.
  induction s as [|c s IH]; intros H; [discriminate|].
  cbn [forallb] in H. cbn [utf8_encode].
  destruct (utf8_encode_char c) as [b|] eqn:Hc; [|reflexivity].
  destruct (encodable_char c) eqn:He.
  - cbn [andb] in H. now rewrite (IH H).
  - exfalso. revert Hc. unfold utf8_encode_char.
    unfold encodable_char in He.
    destruct (is_surrogate c) eqn:Hs.
    + unfold is_surrogate in Hs. apply andb_true_iff in Hs as [Hlo Hhi].
      apply N.leb_le in Hlo, Hhi. settle_tests. discriminate.
    + cbn [negb] in He. rewrite andb_true_r in He. apply N.ltb_ge in He.
      settle_tests. discriminate.
Qed.

Lemma escape_char_not_encodable (c : N) :
  encodable_char c = false -> escape_char c = [c].
Proof.
  intros H. destruct (N.ltb_spec c 128) as [Hlt|Hge];
    [now rewrite ascii_encodable in H|].
  unfold escape_char. settle_tests. reflexivity.
Qed.

Lemma json_string_not_encodable (s : pystr) :
  forallb encodable_char s = false ->
  forallb encodable_char (json_string s) = false.
Proof.
  intros Hs. unfold json_string. cbn [forallb].
  rewrite forallb_app.
  assert (Hbody : forallb encodable_char (flat_map escape_char s) = false).
  { induction s as [|c s IH]; [discriminate|].
    cbn [forallb] in Hs. cbn [flat_map]. rewrite forallb_app.
    destruct (encodable_char c) eqn:Hc.
    - cbn [andb] in Hs. rewrite (IH Hs). apply andb_false_r.
    - rewrite (escape_char_not_encodable c Hc). cbn [forallb].
      now rewrite Hc. }
  rewrite Hbody. apply andb_false_r.
Qed.

Lemma json_dumps_not_encodable (v : pyval) :
  encodable v = false -> forallb encodable_char (json_dumps v) = false.
Proof.
  induction v as [| [|] | n | s | l IH | d IH] using pyval_ind; intros Hv;
    try discriminate.
  - now apply json_string_not_encodable.
  - rewrite json_dumps_list. cbn [forallb]. rewrite forallb_app.
    cbn [encodable] in Hv.
    assert (Hl : forallb encodable_char (dumps_items l) = false).
    { induction IH as [|x l Hx Hl IHl]; [discriminate|].
      cbn [forallb] in Hv.
      assert (Hcons : forallb encodable_char (json_dumps x) = false
                      \/ forallb encodable_char (dumps_items l) = false).
      { destruct (encodable x); [right; now apply IHl|left; now apply Hx]. }
      destruct l as [|y l].
      - destruct Hcons as [H|H]; [exact H|discriminate].
      - rewrite dumps_items_cons, !forallb_app.
        destruct Hcons as [-> | ->]; [reflexivity|].
        now rewrite !andb_false_r. }
    rewrite Hl. now rewrite andb_false_r.
  - rewrite json_dumps_dict. cbn [forallb]. rewrite forallb_app.
    cbn [encodable] in Hv.
    assert (Hd : forallb encodable_char (dumps_members d) = false).
    { induction IH as [|[k x] d Hx Hd IHd]; [discriminate|].
      cbn [forallb] in Hv. cbn [snd] in Hx.
      assert (Hcons : forallb encodable_char (json_string k) = false
                      \/ forallb encodable_char (json_dumps x) = false
                      \/ forallb encodable_char (dumps_members d) = false).
      { destruct (forallb encodable_char k) eqn:Hk;
          [|left; now apply json_string_not_encodable].
        destruct (encodable x); [|right; left; now apply Hx].
        right. right. now apply IHd. }
      destruct d as [|kv d].
      - cbn [dumps_members]. rewrite !forallb_app.
        destruct Hcons as [-> | [-> | H]];
          [reflexivity|now rewrite !andb_false_r|discriminate].
      - rewrite dumps_members_cons, !forallb_app.
        destruct Hcons as [-> | [-> | ->]];
          [reflexivity|now rewrite !andb_false_r|now rewrite !andb_false_r]. }
    rewrite Hd. now rewrite andb_false_r.
Qed.

Lemma map_internal_to_tavern_fields (d : pydict) :
  exists card,
    map_internal_to_tavern (PDict d) = Ok (PDict card)
    /\ encodable (PDict card) = forallb encodable (exported_fields d).
Proof.
  unfold map_internal_to_tavern. rewrite !py_get_dict. cbn [bind].
  eexists. split; [reflexivity|].
  unfold exported_fields. cbn [encodable forallb].
  change (forallb encodable_char (str "name")) with true.
  change (forallb encodable_char (str "description")) with true.
  change (forallb encodable_char (str "personality")) with true.
  change (forallb encodable_char (str "first_mes")) with true.
  change (forallb encodable_char (str "scenario")) with true.
  change (forallb encodable_char (str "mes_example")) with true.
  cbn [andb].
  destruct (encodable (field d (str "ai_name") (PStr (str "BOT"))));
    [|reflexivity].
  destruct (encodable (field d (str "persona_desc") (PStr [])));
    [|reflexivity].
  destruct (encodable (field d (str "greeting") (PStr [])));
    [|reflexivity].
  destruct (encodable (field d (str "scenario") (PStr [])));
    [|reflexivity].
  destruct (encodable (field d (str "mes_example") (PStr [])));
    reflexivity.
Qed.

Section Export_outcome.

Context {Image : Type}.
Variable Image_new : pystr -> N * N -> pystr -> Image.
Variable Image_save : Image -> pystr -> list (pystr * pystr) -> result bytes.
Variable exn_text : exn -> pystr.

Local Abbreviation export :=
  (export_character_card Image_new Image_save exn_text).

Local Abbreviation wrapped e :=
  (Exception (str "Error exporting character card: "
              ++ exn_str exn_text e)).


End Export_outcome.

(** * The spellings of the two tokens *)

Lemma matches_ignorecase_lower (p c : N) :
  is_ascii_upper p = false -> p <> 115%N -> p <> 107%N -> p <> 105%N ->
  matches_ignorecase p c = N.eqb (ascii_lower c) p.
Proof.
  unfold matches_ignorecase, ascii_lower, is_ascii_lower, is_ascii_upper.
  intros Hup H1 H2 H3.
  apply andb_false_iff in Hup.
  rewrite N.leb_gt in Hup. rewrite N.leb_gt in Hup.
  repeat match goal with
         | |- context [N.leb ?a ?b] =>
             destruct (N.leb_spec a b); cbn [andb orb]
         | |- context [N.eqb ?a ?b] =>
             destruct (N.eqb_spec a b); cbn [andb orb]
         end; first [reflexivity | exfalso; lia].
Qed.

Lemma matches_ignorecase_s (c : N) :
  matches_ignorecase 115 c = N.eqb (fold_long_s c) 115.
Proof.
  unfold matches_ignorecase, fold_long_s, ascii_lower, is_ascii_lower,
    is_ascii_upper.
  destruct (N.eqb_spec c 383) as [->|Hc]; [reflexivity|].
  repeat match goal with
         | |- context [N.leb ?a ?b] =>
             destruct (N.leb_spec a b); cbn [andb orb]
         | |- context [N.eqb ?a ?b] =>
             destruct (N.eqb_spec a b); cbn [andb orb]
         end; first [reflexivity | exfalso; lia].
Qed.

Lemma fold_long_s_lower (p c : N) :
  p <> 115%N -> p <> 383%N ->
  N.eqb (fold_long_s c) p = N.eqb (ascii_lower c) p.
Proof.
  intros Hp Hq. unfold fold_long_s, ascii_lower, is_ascii_upper.
  destruct (N.eqb_spec c 383) as [->|Hc].
  { change ((65 <=? 383)%N && (383 <=? 90)%N) with false. cbv iota.
    destruct (N.eqb_spec 115 p); [congruence|].
    destruct (N.eqb_spec 383 p); [congruence|reflexivity]. }
  repeat match goal with
         | |- context [N.leb ?a ?b] =>
             destruct (N.leb_spec a b); cbn [andb orb]
         | |- context [N.eqb ?a ?b] =>
             destruct (N.eqb_spec a b); cbn [andb orb]
         end; first [reflexivity | exfalso; lia].
Qed.

Lemma match_here_char_token (m : pystr) :
  List.length m = 8%nat ->
  match_here char_token m = pystr_eqb (map ascii_lower m) char_token.
Proof.
  intros Hlen.
  do 8 (destruct m as [|? m]; [discriminate|]).
  destruct m; [|discriminate].
  change char_token with [123; 123; 99; 104; 97; 114; 125; 125]%N.
  cbn [match_here map pystr_eqb].
  rewrite !matches_ignorecase_lower by (try reflexivity; discriminate).
  reflexivity.
Qed.

Lemma match_here_user_token (m : pystr) :
  List.length m = 8%nat ->
  match_here user_token m = pystr_eqb (map fold_long_s m) user_token.
Proof.
  intros Hlen.
  do 8 (destruct m as [|? m]; [discriminate|]).
  destruct m; [|discriminate].
  change user_token with [123; 123; 117; 115; 101; 114; 125; 125]%N.
  cbn [match_here map pystr_eqb].
  rewrite matches_ignorecase_s.
  rewrite !matches_ignorecase_lower by (try reflexivity; discriminate).
  rewrite <- !(fold_long_s_lower 123), <- !(fold_long_s_lower 125),
    <- (fold_long_s_lower 117), <- (fold_long_s_lower 101),
    <- (fold_long_s_lower 114) by discriminate.
  reflexivity.
Qed.

Lemma occurs_short (pat text : pystr) :
  (List.length text < List.length pat)%nat -> occurs pat text = false.
Proof.
  induction text as [|c text IH]; intros Hlen.
  - destruct pat; [simpl in Hlen; lia|reflexivity].
  - cbn [occurs]. rewrite IH by (simpl in Hlen; lia).
    destruct (match_here pat (c :: text)) eqn:Hm; [|reflexivity].
    apply match_here_length in Hm. lia.
Qed.

Lemma occurs_same_length (pat text : pystr) :
  List.length text = List.length pat ->
  occurs pat text = match_here pat text.
Proof.
  intros Hlen. destruct text as [|c text].
  - destruct pat; [reflexivity|discriminate].
  - cbn [occurs]. rewrite occurs_short by (simpl in Hlen; lia).
    apply orb_false_r.
Qed.

Lemma sub_literal_whole (pat r m : pystr) :
  pat <> [] -> List.length m = List.length pat ->
  match_here pat m = true -> sub_literal pat r m = r.
Proof.
  intros Hpat Hlen Hm. unfold sub_literal.
  rewrite <- (app_nil_r m) at 1.
  rewrite sub_scan_at_match by (try assumption; now rewrite app_nil_r).
  rewrite expand_literal. apply app_nil_r.
Qed.

(** X9.  The spellings the substitution takes for a token.  A text of eight
    characters is replaced by the character name (in which the user
    tokens are then replaced) exactly when it is [{{char}}] up to the case
    of its ASCII letters; it is replaced by the user name exactly when it
    is [{{user}}] up to the case of its ASCII letters and to a long s
    (U+017F) written for the [s]; any other text of eight characters is
    returned as it is. *)
Theorem replace_placeholders_spellings (m c u : pystr) :
  backslash_free c = true -> backslash_free u = true ->
  List.length m = 8%nat ->
  (map ascii_lower m = char_token ->
   replace_placeholders (PStr m) (PStr c) (PStr u)
   = Ok (PStr (sub_literal user_token u c)))
  /\ (map fold_long_s m = user_token ->
      replace_placeholders (PStr m) (PStr c) (PStr u) = Ok (PStr u))
  /\ (map ascii_lower m <> char_token ->
      map fold_long_s m <> user_token ->
      replace_placeholders (PStr m) (PStr c) (PStr u) = Ok (PStr m)).
Proof.
  intros Hc Hu Hlen.
  rewrite replace_placeholders_literal by assumption.
  unfold substitute.
  pose proof (match_here_char_token m Hlen) as Hchar.
  pose proof (match_here_user_token m Hlen) as Huser.
  assert (Hdisjoint : map fold_long_s m = user_token ->
                      match_here char_token m = false).
  { intros Hm. rewrite Hchar.
    destruct (pystr_eqb (map ascii_lower m) char_token) eqn:E;
      [|reflexivity].
    apply pystr_eqb_eq in E. exfalso.
    do 3 (destruct m as [|? m]; [discriminate|]).
    cbn [map] in Hm, E.
    change char_token with [123; 123; 99; 104; 97; 114; 125; 125]%N in E.
    change user_token with [123; 123; 117; 115; 101; 114; 125; 125]%N in Hm.
    injection E as _ _ E _. injection Hm as _ _ Hm _.
    unfold fold_long_s in Hm. rewrite E in Hm.
    destruct (N.eqb n1 383); discriminate. }
  split; [|split].
  - intros Hm.
    rewrite (sub_literal_whole char_token c m); [reflexivity|discriminate
                                                |exact Hlen|].
    rewrite Hchar, Hm. apply pystr_eqb_refl.
  - intros Hm.
    unfold sub_literal at 2.
    rewrite sub_scan_no_occurrence
      by (rewrite occurs_same_length by exact Hlen; now apply Hdisjoint).
    rewrite (sub_literal_whole user_token u m); [reflexivity|discriminate
                                                |exact Hlen|].
    rewrite Huser, Hm. apply pystr_eqb_refl.
  - intros Hnc Hnu.
    unfold sub_literal.
    assert (Hno : forall pat folded,
               List.length pat = 8%nat ->
               match_here pat m = pystr_eqb folded pat ->
               folded <> pat -> occurs pat m = false).
    { intros pat folded Hp Heq Hne.
      rewrite occurs_same_length by congruence. rewrite Heq.
      destruct (pystr_eqb folded pat) eqn:E; [|reflexivity].
      now apply pystr_eqb_eq in E. }
    rewrite (sub_scan_no_occurrence char_token)
      by (now apply (Hno char_token (map ascii_lower m))).
    rewrite (sub_scan_no_occurrence user_token)
      by (now apply (Hno user_token (map fold_long_s m))).
    reflexivity.
Qed.

(** * Characters the decoding passes over *)

Lemma a2b_base64_significant (s : pystr) :
  forall quad_pos leftchar pads,
    a2b_base64 quad_pos leftchar pads s
    = a2b_base64 quad_pos leftchar pads (filter b64_significant s).
Proof.
  induction s as [|ch s IH]; intros quad_pos leftchar pads; [reflexivity|].
  cbn [filter]. unfold b64_significant at 1.
  destruct (N.eqb ch 61) eqn:Hpad.
  - cbn [orb a2b_base64]. rewrite Hpad.
    destruct (2 <=? quad_pos)%N; [|apply IH].
    destruct (4 <=? quad_pos + (pads + 1))%N; [reflexivity|apply IH].
  - cbn [orb]. destruct (b64_value ch) as [v|] eqn:Hv.
    + cbn [a2b_base64]. rewrite Hpad, Hv.
      destruct (quad_pos =? 0)%N; [apply IH|].
      destruct (quad_pos =? 1)%N; [now rewrite IH|].
      destruct (quad_pos =? 2)%N; now rewrite IH.
    + cbn [a2b_base64]. rewrite Hpad, Hv. apply IH.
Qed.

(** X10.  The decoding of the [chara] entry passes over every character that
    is neither of the base64 alphabet nor the padding sign: an ASCII
    entry broken into lines, or with blanks, decodes as the entry
    without them. *)
Theorem b64decode_passes_over (s : pystr) :
  is_ascii s = true ->
  b64decode (PStr s) = b64decode (PStr (filter b64_significant s)).
Proof.
  intros Hs. cbn [b64decode]. rewrite Hs.
  assert (Hf : is_ascii (filter b64_significant s) = true).
  { unfold is_ascii in *. rewrite forallb_forall in *.
    intros c Hc. apply filter_In in Hc as [Hc _]. now apply Hs. }
  rewrite Hf. apply a2b_base64_significant.
Qed.

(** * Errors of the substitution *)

Lemma compile_template_raises (name : pystr) (e : exn) :
  compile_template name = Raise e ->
  e = ReError /\ backslash_free name = false.
Proof.
  intros H. split.
  - destruct (compile_template_total name) as [[t Ht]|Ht]; congruence.
  - destruct (backslash_free name) eqn:Hb; [|reflexivity].
    rewrite (compile_template_literal name Hb) in H. discriminate.
Qed.


Lemma persona_join_truthy (d : pydict) : truthy (PStr (persona_join d)) = true.
Proof.
  unfold persona_join, nonempty_text.
  destruct (dict_get d (str "personality")) as [[| | |[|c s]| |]|];
    destruct (dict_get d (str "description")) as [[| | |[|c' s']| |]|];
    reflexivity.
Qed.


(** * The properties at work on examples *)




Lemma import_character_card_not_an_object_list :
  stub_import (Source_file [ (str "chara", PStr (str "W10=")) ])
    (PStr (str "YOU"))
  = Ok {| success := false;
          error := Some (str "Error importing character card: error");
          image := None;
          character_data := None |}.
Proof.
  apply (import_character_card_not_an_object stub_open stub_info stub_loads
           stub_text
           (Source_file [ (str "chara", PStr (str "W10=")) ])
           (PStr (str "YOU"))
           [ (str "chara", PStr (str "W10=")) ]
           (PStr (str "W10=")) [91; 93]%N (PList []));
    reflexivity.
Defined.


Lemma replace_placeholders_spellings_mixed_case :
  replace_placeholders (PStr (str "{{ChAr}}")) (PStr (str "Ada"))
    (PStr (str "Bob")) = Ok (PStr (str "Ada"))
  /\ replace_placeholders (PStr [123; 123; 85; 383; 101; 82; 125; 125]%N)
       (PStr (str "Ada")) (PStr (str "Bob")) = Ok (PStr (str "Bob"))
  /\ replace_placeholders (PStr (str "{{chor}}")) (PStr (str "Ada"))
       (PStr (str "Bob")) = Ok (PStr (str "{{chor}}")).
Proof.
  split; [|split].
  - apply (proj1 (replace_placeholders_spellings (str "{{ChAr}}")
                    (str "Ada") (str "Bob") eq_refl eq_refl eq_refl)).
    reflexivity.
  - apply (proj1 (proj2 (replace_placeholders_spellings
                           [123; 123; 85; 383; 101; 82; 125; 125]%N
                           (str "Ada") (str "Bob")
                           eq_refl eq_refl eq_refl))).
    reflexivity.
  - apply (proj2 (proj2 (replace_placeholders_spellings (str "{{chor}}")
                           (str "Ada") (str "Bob")
                           eq_refl eq_refl eq_refl))); discriminate.
Defined.

Lemma b64decode_passes_over_line_break :
  b64decode (PStr [101; 121; 74; 117; 10; 89; 87; 49; 108; 32; 73; 106;
                   111; 103; 13; 10; 73; 107; 70; 107; 89; 83; 74; 57]%N)
  = b64decode (PStr (str "eyJuYW1lIjogIkFkYSJ9")).
Proof.
  apply (b64decode_passes_over
           [101; 121; 74; 117; 10; 89; 87; 49; 108; 32; 73; 106;
            111; 103; 13; 10; 73; 107; 70; 107; 89; 83; 74; 57]%N).
  reflexivity.
Defined.



